(** * AnimatedGifTexture: frame scheduling, patch placement and lifecycle

    A shallow embedding of [src/animatedGifTexture.ts] and of the patch
    shader [animatedGifTextureShader], with the properties of the
    scheduler, of the placement matrix, of the compositing draw and of the
    resource lifecycle.

    Numbers.  JavaScript and GLSL numbers are embedded as exact rationals
    ([Q]); patch dimensions, which the decoder produces as integers, are
    [Z].  IEEE rounding is outside the embedding.

    Effects.  The class mutates its own fields and calls the engine; both
    are threaded through a state-and-exception monad whose state survives a
    throw, as a JavaScript object does.  Calls into the engine are recorded,
    in program order, in the object's [calls] log. *)

From Stdlib Require Import ZArith QArith Bool List String Lia Lqa Arith.
Import ListNotations.

(* ================================================================== *)
(** ** Numbers *)

Module Num.

Local Open Scope Q_scope.

(** [a < b] on numbers, as a boolean. *)
Definition ltb (a b : Q) : bool := negb (Qle_bool b a).

(** A possibly [undefined] number on the left of [-] gives NaN, and every
    comparison with NaN is false. *)
Definition elapsed_lt (now : Q) (previous : option Q) (d : Q) : bool :=
  match previous with
  | Some p => ltb (now - p) d
  | None => false
  end.

End Num.

(* ================================================================== *)
(** ** Frames *)

(** [GifFrame.dims]. *)
Record Dims : Type := mkDims {
  width : Z;
  height : Z;
  top : Z;
  left : Z
}.

(** The contents of a [Float32Array] of nine entries, in array order. *)
Record Mat3 : Type := mkMat3 {
  m0 : Q; m1 : Q; m2 : Q;
  m3 : Q; m4 : Q; m5 : Q;
  m6 : Q; m7 : Q; m8 : Q
}.

(** Handles of engine textures: the n-th texture the engine allocated. *)
Definition InternalTexture : Type := nat.

(** [GifFrame].  [texture] and [worldMatrix] are absent on the records the
    decoder returns and are filled in by [_createGifResources]. *)
Record GifFrame : Type := mkGifFrame {
  dims : Dims;
  patch : list Z;
  delay : Q;
  texture : option InternalTexture;
  worldMatrix : option Mat3
}.

(* ================================================================== *)
(** ** The engine, seen from the class *)

(** Calls the class makes into the engine and its helpers. *)
Inductive Call : Type :=
| CreateRawTexture (id : InternalTexture) (w h : Z)
| NewEffectWrapper
| NewEffectRenderer
| LoadFile (url : string)
| UpdateTextureWrappingMode
| CreateRenderTargetTexture (d : Dims)
| ReleaseTexture
| SwapAndDie
| RunRenderLoop
| StopRenderLoop
| Render (f : GifFrame)
| SetViewport
| OnLoad
| DisposeEffectWrapper
| DisposeEffectRenderer
| DisposeFrameTexture (id : InternalTexture)
| DisposeRenderTarget
| SuperDispose.

(** What a render tick reads from its environment: [PrecisionDate.Now] at
    the delay test, [PrecisionDate.Now] again after the draw, and whether
    the patch effect has compiled. *)
Record Tick : Type := mkTick {
  now_test : Q;
  now_drawn : Q;
  effect_ready : bool
}.

(* ================================================================== *)
(** ** The object *)

(** The internal texture of the base class, as far as the class touches it. *)
Record Texture : Type := mkTexture {
  tex_width : Z;
  tex_height : Z;
  isReady : bool
}.

Record AnimatedGifTexture : Type := mkAGT {
  name : string;
  _onLoad : bool;                       (* a callback was given *)
  _frames : option (list GifFrame);     (* Nullable, initially null *)
  _currentFrame : option GifFrame;      (* initially undefined *)
  _nextFrameIndex : nat;
  _previousDate : option Q;             (* initially undefined *)
  _renderTarget : option Dims;          (* initially undefined *)
  _texture : option Texture;             (* null until created *)
  allocated : nat;                      (* textures the engine has handed out *)
  calls : list Call
}.

(* ================================================================== *)
(** ** State and exceptions *)

Inductive JsError : Type :=
| TypeError (what : string)
| Error (message : string).

Inductive Outcome (A : Type) : Type :=
| Return (a : A) (o : AnimatedGifTexture)
| Throw (e : JsError) (o : AnimatedGifTexture).

Arguments Return {A} a o.
Arguments Throw {A} e o.

Definition M (A : Type) : Type := AnimatedGifTexture -> Outcome A.

Definition ret {A} (a : A) : M A := fun o => Return a o.

Definition bind {A B} (c : M A) (k : A -> M B) : M B :=
  fun o => match c o with
           | Return a o' => k a o'
           | Throw e o' => Throw e o'
           end.

Definition throw {A} (e : JsError) : M A := fun o => Throw e o.

Definition get : M AnimatedGifTexture := fun o => Return o o.

Definition modify (f : AnimatedGifTexture -> AnimatedGifTexture) : M unit :=
  fun o => Return tt (f o).

Declare Scope js_scope.
Delimit Scope js_scope with js.
Notation "x <- c ;; k" := (bind c (fun x => k))
  (at level 61, c at next level, right associativity) : js_scope.
Notation "c ;; k" := (bind c (fun _ => k))
  (at level 61, right associativity) : js_scope.

(** The object an outcome leaves behind, thrown or not. *)
Definition after {A} (r : Outcome A) : AnimatedGifTexture :=
  match r with
  | Return _ o => o
  | Throw _ o => o
  end.

Definition returned {A} (r : Outcome A) : bool :=
  match r with
  | Return _ _ => true
  | Throw _ _ => false
  end.

(* ================================================================== *)
(** ** Field assignments *)

Definition set_frames (v : option (list GifFrame)) (o : AnimatedGifTexture) :=
  mkAGT (name o) (_onLoad o) v (_currentFrame o) (_nextFrameIndex o)
        (_previousDate o) (_renderTarget o) (_texture o) (allocated o) (calls o).

Definition set_currentFrame (v : option GifFrame) (o : AnimatedGifTexture) :=
  mkAGT (name o) (_onLoad o) (_frames o) v (_nextFrameIndex o)
        (_previousDate o) (_renderTarget o) (_texture o) (allocated o) (calls o).

Definition set_nextFrameIndex (v : nat) (o : AnimatedGifTexture) :=
  mkAGT (name o) (_onLoad o) (_frames o) (_currentFrame o) v
        (_previousDate o) (_renderTarget o) (_texture o) (allocated o) (calls o).

Definition set_previousDate (v : option Q) (o : AnimatedGifTexture) :=
  mkAGT (name o) (_onLoad o) (_frames o) (_currentFrame o) (_nextFrameIndex o)
        v (_renderTarget o) (_texture o) (allocated o) (calls o).

Definition set_renderTarget (v : option Dims) (o : AnimatedGifTexture) :=
  mkAGT (name o) (_onLoad o) (_frames o) (_currentFrame o) (_nextFrameIndex o)
        (_previousDate o) v (_texture o) (allocated o) (calls o).

Definition set_texture (v : option Texture) (o : AnimatedGifTexture) :=
  mkAGT (name o) (_onLoad o) (_frames o) (_currentFrame o) (_nextFrameIndex o)
        (_previousDate o) (_renderTarget o) v (allocated o) (calls o).

Definition set_allocated (v : nat) (o : AnimatedGifTexture) :=
  mkAGT (name o) (_onLoad o) (_frames o) (_currentFrame o) (_nextFrameIndex o)
        (_previousDate o) (_renderTarget o) (_texture o) v (calls o).

Definition set_calls (v : list Call) (o : AnimatedGifTexture) :=
  mkAGT (name o) (_onLoad o) (_frames o) (_currentFrame o) (_nextFrameIndex o)
        (_previousDate o) (_renderTarget o) (_texture o) (allocated o) v.

Definition set_isReady (v : bool) (t : Texture) : Texture :=
  mkTexture (tex_width t) (tex_height t) v.

Definition set_tex_width (v : Z) (t : Texture) : Texture :=
  mkTexture v (tex_height t) (isReady t).

Definition set_tex_height (v : Z) (t : Texture) : Texture :=
  mkTexture (tex_width t) v (isReady t).

(** The readiness a consumer observes. *)
Definition ready (o : AnimatedGifTexture) : bool :=
  match _texture o with
  | Some t => isReady t
  | None => false
  end.

Definition is_OnLoad (c : Call) : bool :=
  match c with
  | OnLoad => true
  | _ => false
  end.

Definition is_Render (c : Call) : bool :=
  match c with
  | Render _ => true
  | _ => false
  end.

(** How often the completion callback has run. *)
Definition onLoad_runs (o : AnimatedGifTexture) : nat :=
  List.length (filter is_OnLoad (calls o)).

(** The frames drawn onto the render target so far, oldest first. *)
Definition drawn (o : AnimatedGifTexture) : list GifFrame :=
  flat_map (fun c => match c with Render f => [f] | _ => [] end) (calls o).

Definition call (c : Call) : M unit :=
  modify (fun o => set_calls (calls o ++ [c]) o).

(* ================================================================== *)
(** ** Placement of a patch: the matrix of [_createGifResources] *)

Module Placement.

Local Open Scope Q_scope.

(** The body of the loop after the texture is created: the matrix written
    into [frame.worldMatrix].  [canvas] is [this._frames[0].dims]. *)
Definition worldMatrixOf (canvas : Dims) (d : Dims) : Mat3 :=
  let sx := inject_Z (width d) / inject_Z (width canvas) in
  let sy := inject_Z (height d) / inject_Z (height canvas) in
  let tx := inject_Z (left d) / inject_Z (width canvas) in
  let ty := (inject_Z (height canvas) - (inject_Z (top d) + inject_Z (height d)))
            / inject_Z (height canvas) in
  mkMat3 sx 0 tx
         0 sy ty
         0 0 1.

(** The matrix the spec's Placement Transform names, entry by entry. *)
Definition placement_of_spec (sx sy tx ty : Q) : Mat3 :=
  mkMat3 sx 0 tx 0 sy ty 0 0 1.

Definition identity : Mat3 := mkMat3 1 0 0 0 1 0 0 0 1.

(** Equality of matrices as numbers (entrywise equality of rationals). *)
Definition mat_eq (a b : Mat3) : Prop :=
  m0 a == m0 b /\ m1 a == m1 b /\ m2 a == m2 b /\
  m3 a == m3 b /\ m4 a == m4 b /\ m5 a == m5 b /\
  m6 a == m6 b /\ m7 a == m7 b /\ m8 a == m8 b.

End Placement.

(* ================================================================== *)
(** ** Methods of the class *)

Local Open Scope js_scope.

(** [engine.createRawTexture]: a fresh handle; the engine hands the texture
    back ready. *)
Definition createRawTexture (w h : Z) : M InternalTexture :=
  o <- get ;;
  modify (set_allocated (S (allocated o))) ;;
  call (CreateRawTexture (allocated o) w h) ;;
  ret (allocated o).

(** An assignment through [this._texture]; a null receiver throws. *)
Definition on_texture (f : Texture -> Texture) : M unit :=
  o <- get ;;
  match _texture o with
  | Some t => modify (set_texture (Some (f t)))
  | None => throw (TypeError "this._texture is null")
  end.

Definition _createInternalTexture : M unit :=
  _ <- createRawTexture 1 1 ;;
  modify (set_texture (Some (mkTexture 1 1 true))) ;;
  (* Do not be ready before the data has been loaded *)
  on_texture (set_isReady false).

Definition _createRenderer : M unit :=
  call NewEffectWrapper ;;
  call NewEffectRenderer.

Definition _loadGifTexture : M unit :=
  o <- get ;;
  call (LoadFile (name o)).

(** The object right after [super(engine)], before any field is assigned. *)
Definition fresh : AnimatedGifTexture :=
  mkAGT EmptyString false None None 0 None None None 0 [].

Definition set_name (v : string) (o : AnimatedGifTexture) :=
  mkAGT v (_onLoad o) (_frames o) (_currentFrame o) (_nextFrameIndex o)
        (_previousDate o) (_renderTarget o) (_texture o) (allocated o) (calls o).

Definition set_onLoad (v : bool) (o : AnimatedGifTexture) :=
  mkAGT (name o) v (_frames o) (_currentFrame o) (_nextFrameIndex o)
        (_previousDate o) (_renderTarget o) (_texture o) (allocated o) (calls o).

(** [new AnimatedGifTexture(url, engine, onLoad)]; [onLoad] says whether a
    callback was passed. *)
Definition constructor (url : string) (onLoad : bool) : M unit :=
  modify (set_name url) ;;
  modify (set_onLoad onLoad) ;;
  _createInternalTexture ;;
  _createRenderer ;;
  (* _createRenderLoopCallback only builds the closure over _renderFrame *)
  _loadGifTexture.

Definition construct (url : string) (onLoad : bool) : Outcome unit :=
  constructor url onLoad fresh.

(** [_parseGifData]: the decoder is an external collaborator; its result,
    the decompressed frames, is what the method stores. *)
Definition _parseGifData (decoded : list GifFrame) : M unit :=
  modify (set_frames (Some decoded)).

(** One turn of the [for (let frame of this._frames)] loop.  The frame
    object is updated in place; the updated record is returned so that the
    caller can put it back at its position in the array. *)
Definition createFrameResources (canvas : Dims) (frame : GifFrame) : M GifFrame :=
  id <- createRawTexture (width (dims frame)) (height (dims frame)) ;;
  call UpdateTextureWrappingMode ;;
  ret (mkGifFrame (dims frame) (patch frame) (delay frame) (Some id)
                  (Some (Placement.worldMatrixOf canvas (dims frame)))).

Fixpoint createFramesResources (canvas : Dims) (fs : list GifFrame)
  : M (list GifFrame) :=
  match fs with
  | [] => ret []
  | frame :: rest =>
      frame' <- createFrameResources canvas frame ;;
      rest' <- createFramesResources canvas rest ;;
      ret (frame' :: rest')
  end.

(** [this._frames[0].dims]: reading [dims] of [undefined] throws. *)
Definition firstFrameDims (fs : list GifFrame) : M Dims :=
  match nth_error fs 0 with
  | Some f => ret (dims f)
  | None => throw (TypeError "this._frames[0] is undefined")
  end.

Definition _createGifResources : M unit :=
  o <- get ;;
  match _frames o with
  | None => throw (TypeError "this._frames is not iterable")
  | Some fs =>
      (* inside the loop the array is not empty, so frame 0 exists *)
      fs' <- createFramesResources (match fs with
                                    | f0 :: _ => dims f0
                                    | [] => mkDims 0 0 0 0
                                    end) fs ;;
      modify (set_frames (Some fs')) ;;
      canvas <- firstFrameDims fs' ;;
      call (CreateRenderTargetTexture canvas) ;;
      modify (set_renderTarget (Some canvas)) ;;
      call ReleaseTexture ;;
      (* the render target's texture takes the place of the placeholder *)
      call SwapAndDie ;;
      modify (set_texture (Some (mkTexture (width canvas) (height canvas) true))) ;;
      call UpdateTextureWrappingMode ;;
      on_texture (set_tex_width (width canvas)) ;;
      on_texture (set_tex_height (height canvas)) ;;
      on_texture (set_isReady false)
  end.

(** [_drawPatch]. *)
Definition _drawPatch (t : Tick) : M unit :=
  (* The texture is only ready when we are able to render *)
  if negb (effect_ready t) then ret tt
  else
    o <- get ;;
    match _currentFrame o with
    | None => throw (TypeError "frame is undefined")
    | Some frame =>
        (* world matrix and patch texture are bound when the effect applies *)
        call (Render frame) ;;
        call SetViewport ;;
        o' <- get ;;
        match _texture o' with
        | None => throw (TypeError "this._texture is null")
        | Some tx =>
            if negb (isReady tx) then
              on_texture (set_isReady true) ;;
              (if _onLoad o' then call OnLoad else ret tt)
            else ret tt
        end
    end.

(** The index update that closes [_renderFrame]: increment, then wrap. *)
Definition bump (len i : nat) : nat :=
  if (len <=? S i)%nat then 0%nat else S i.

(** The test that opens [_renderFrame]: a current frame exists and its
    delay has not yet elapsed. *)
Definition holds (o : AnimatedGifTexture) (t : Tick) : bool :=
  match _currentFrame o with
  | Some cf => Num.elapsed_lt (now_test t) (_previousDate o) (delay cf)
  | None => false
  end.

(** [_renderFrame]. *)
Definition _renderFrame (t : Tick) : M unit :=
  o <- get ;;
  (* Keep the current frame as long as specified in the Gif data *)
  if holds o t then ret tt
  else
    match _frames o with
    | None => throw (TypeError "this._frames is null")
    | Some fs =>
        (* Replace the current frame *)
        modify (set_currentFrame (nth_error fs (_nextFrameIndex o))) ;;
        (* Patch the texture *)
        _drawPatch t ;;
        (* Recall the current draw time for this frame *)
        modify (set_previousDate (Some (now_drawn t))) ;;
        (* Update the next frame index *)
        modify (set_nextFrameIndex (bump (List.length fs) (_nextFrameIndex o)))
    end.

(** The callback handed to [_loadFile]: runs once the file is read. *)
Definition onFileLoaded (decoded : list GifFrame) : M unit :=
  _parseGifData decoded ;;
  _createGifResources ;;
  (* Start Rendering the sequence of frames *)
  call RunRenderLoop.

Fixpoint disposeFrameTextures (fs : list GifFrame) : M unit :=
  match fs with
  | [] => ret tt
  | frame :: rest =>
      match texture frame with
      | Some id => call (DisposeFrameTexture id)
      | None => throw (TypeError "frame.texture is undefined")
      end ;;
      disposeFrameTextures rest
  end.

(** [dispose]. *)
Definition dispose : M unit :=
  (* Stops the current Gif update loop *)
  call StopRenderLoop ;;
  (* Clear the render helpers *)
  call DisposeEffectWrapper ;;
  call DisposeEffectRenderer ;;
  (* Clear the textures from the Gif *)
  o <- get ;;
  match _frames o with
  | None => throw (TypeError "this._frames is not iterable")
  | Some fs =>
      disposeFrameTextures fs ;;
      match _renderTarget o with
      | Some _ => call DisposeRenderTarget
      | None => throw (TypeError "this._renderTarget is undefined")
      end ;;
      (* Disposes the render target associated resources *)
      call SuperDispose
  end.

(** The render loop: the engine calls the callback once per tick. *)
Fixpoint runTicks (ts : list Tick) : M unit :=
  match ts with
  | [] => ret tt
  | t :: rest => _renderFrame t ;; runTicks rest
  end.

(* ================================================================== *)
(** ** The patch shader *)

Module Shader.

Local Open Scope Q_scope.

Record vec2 : Type := mkVec2 { x2 : Q; y2 : Q }.
Record vec3 : Type := mkVec3 { x3 : Q; y3 : Q; z3 : Q }.
Record vec4 : Type := mkVec4 { r : Q; g : Q; b : Q; a : Q }.

(** A bound texture with its sampling state: [texture2D] at a coordinate. *)
Definition sampler2D : Type := vec2 -> vec4.

Definition texture2D (s : sampler2D) (uv : vec2) : vec4 := s uv.

(** Componentwise product of two [vec4]. *)
Definition mul4 (p q : vec4) : vec4 :=
  mkVec4 (r p * r q) (g p * g q) (b p * b q) (a p * a q).

(** [v * world] in GLSL: the vector is a row, and component [j] of the
    result is the dot product of [v] with column [j].  [setMatrix3x3]
    uploads the array without transposing, so column [j] is entries
    [3j .. 3j+2] of the array. *)
Definition row_times (v : vec3) (world : Mat3) : vec3 :=
  mkVec3 (x3 v * m0 world + y3 v * m1 world + z3 v * m2 world)
         (x3 v * m3 world + y3 v * m4 world + z3 v * m5 world)
         (x3 v * m6 world + y3 v * m7 world + z3 v * m8 world).

(** What the vertex stage hands on: the varying and the clip position. *)
Record Vertex : Type := mkVertex { vUV : vec2; gl_Position : vec4 }.

Definition vertexShader (world : Mat3) (position : vec2) : Vertex :=
  let wPosition := row_times (mkVec3 (x2 position) (y2 position) 1) world in
  let wPosition := mkVec3 (x3 wPosition * 2 - 1) (y3 wPosition * 2 - 1)
                          (z3 wPosition * 2 - 1) in
  mkVertex position (mkVec4 (x3 wPosition) (y3 wPosition) 0 1).

Inductive Fragment : Type :=
| Discard
| FragColor (c : vec4).

Definition fragmentShader (textureSampler : sampler2D) (color : vec4)
           (vUV : vec2) : Fragment :=
  let uv := mkVec2 (x2 vUV) (1 - y2 vUV) in
  let finalColor := mul4 (texture2D textureSampler vUV) color in
  if Qeq_bool (a color) 1 && Qeq_bool (a finalColor) 0 then Discard
  else FragColor finalColor.

End Shader.

(* ================================================================== *)
(** ** The draw onto the render target *)

(** The graphics pipeline is not part of the repository.  What follows is
    the part of its contract the class relies on: [EffectRenderer.render]
    binds the target without clearing it and draws the quad
    [positions: [1, 1, 0, 1, 0, 0, 1, 0]]; a fragment is produced for each
    pixel of the target whose centre lies in the quad; a discarded fragment
    leaves the pixel as it was, any other is combined with it by the
    engine's current blend function. *)
Module Compositor.

Import Shader.
Local Open Scope Q_scope.

(** The render target: its size and its pixels, column [i] from the left
    and row [j] from the bottom, as the pipeline addresses them. *)
Record Surface : Type := mkSurface {
  s_width : Z;
  s_height : Z;
  pixel : Z -> Z -> vec4
}.

Definition positions : list vec2 :=
  [mkVec2 1 1; mkVec2 0 1; mkVec2 0 0; mkVec2 1 0].

(** Centre of pixel [(i, j)] in normalised device coordinates. *)
Definition centre (s : Surface) (i j : Z) : vec2 :=
  mkVec2 (inject_Z (2 * i + 1) / inject_Z (s_width s) - 1)
         (inject_Z (2 * j + 1) / inject_Z (s_height s) - 1).

(** The point lies in the box spanned by the transformed quad. *)
Definition covered (vs : list Vertex) (c : vec2) : bool :=
  existsb (fun v => Qle_bool (r (gl_Position v)) (x2 c)) vs &&
  existsb (fun v => Qle_bool (x2 c) (r (gl_Position v))) vs &&
  existsb (fun v => Qle_bool (g (gl_Position v)) (y2 c)) vs &&
  existsb (fun v => Qle_bool (y2 c) (g (gl_Position v))) vs.

(** The varying at a point of the quad: [vUV] is the vertex position, so
    it is the point pulled back through the vertex transform. *)
Definition interpolate (world : Mat3) (c : vec2) : vec2 :=
  let o := gl_Position (vertexShader world (mkVec2 0 0)) in
  let ex := gl_Position (vertexShader world (mkVec2 1 0)) in
  let ey := gl_Position (vertexShader world (mkVec2 0 1)) in
  mkVec2 ((x2 c - r o) / (r ex - r o)) ((y2 c - g o) / (g ey - g o)).

Definition in_surface (s : Surface) (i j : Z) : bool :=
  (0 <=? i)%Z && (i <? s_width s)%Z && (0 <=? j)%Z && (j <? s_height s)%Z.

Definition draw (world : Mat3) (textureSampler : sampler2D) (color : vec4)
           (blend : vec4 -> vec4 -> vec4) (s : Surface) : Surface :=
  mkSurface (s_width s) (s_height s)
    (fun i j =>
       if in_surface s i j &&
          covered (map (vertexShader world) positions) (centre s i j)
       then
         match fragmentShader textureSampler color
                              (interpolate world (centre s i j)) with
         | Discard => pixel s i j
         | FragColor c => blend c (pixel s i j)
         end
       else pixel s i j).

(** One [Render] call of [_drawPatch]: the frame's matrix and texture are
    the shader inputs. *)
Definition renderPatch (textures : InternalTexture -> sampler2D)
           (color : vec4) (blend : vec4 -> vec4 -> vec4)
           (s : Surface) (frame : GifFrame) : Surface :=
  match worldMatrix frame, texture frame with
  | Some world, Some id => draw world (textures id) color blend s
  | _, _ => s
  end.

(** The render target after all the draws the object has issued. *)
Definition composite (textures : InternalTexture -> sampler2D)
           (color : vec4) (blend : vec4 -> vec4 -> vec4)
           (s : Surface) (o : AnimatedGifTexture) : Surface :=
  fold_left (renderPatch textures color blend) (drawn o) s.

(** The rectangle a frame's [dims] name, in the pixels of a target of
    height [h]: columns count from the left, [top] counts rows from the
    top. *)
Definition in_patch (h : Z) (d : Dims) (i j : Z) : bool :=
  (left d <=? i)%Z && (i <? left d + width d)%Z &&
  (top d <=? h - 1 - j)%Z && (h - 1 - j <? top d + height d)%Z.

End Compositor.

(* ================================================================== *)
(** ** Objects in play and sample data *)

(** An object whose file has loaded and whose render loop runs: the frames
    are there, the next index points into them, and the internal texture
    exists. *)
Definition Playing (o : AnimatedGifTexture) (fs : list GifFrame) : Prop :=
  _frames o = Some fs /\
  (_nextFrameIndex o < List.length fs)%nat /\
  _texture o <> None.

(** Every tick of [ts], run in turn from [o], passes the delay test. *)
Fixpoint allAdvance (o : AnimatedGifTexture) (ts : list Tick) : bool :=
  match ts with
  | [] => true
  | t :: rest => negb (holds o t) && allAdvance (after (_renderFrame t o)) rest
  end.

(** The calls a tick that passes the delay test adds to the log. *)
Definition drawCalls (o : AnimatedGifTexture) (t : Tick) (f : GifFrame)
  : list Call :=
  if effect_ready t
  then Render f :: SetViewport ::
       (if negb (ready o) && _onLoad o then [OnLoad] else [])
  else [].

(** The frames as the loop of [_createGifResources] leaves them, when the
    engine's next free texture handle is [n]. *)
Fixpoint withResources (canvas : Dims) (n : nat) (fs : list GifFrame)
  : list GifFrame :=
  match fs with
  | [] => []
  | frame :: rest =>
      mkGifFrame (dims frame) (patch frame) (delay frame) (Some n)
                 (Some (Placement.worldMatrixOf canvas (dims frame)))
      :: withResources canvas (S n) rest
  end.

(** The engine calls of that loop. *)
Fixpoint resourceCalls (n : nat) (fs : list GifFrame) : list Call :=
  match fs with
  | [] => []
  | frame :: rest =>
      CreateRawTexture n (width (dims frame)) (height (dims frame))
      :: UpdateTextureWrappingMode :: resourceCalls (S n) rest
  end.

(** The releases of [dispose] on an object whose frames are [fs]. *)
Definition disposeCalls (fs : list GifFrame) : list Call :=
  [StopRenderLoop; DisposeEffectWrapper; DisposeEffectRenderer]
  ++ flat_map (fun f => match texture f with
                        | Some id => [DisposeFrameTexture id]
                        | None => []
                        end) fs
  ++ [DisposeRenderTarget; SuperDispose].

(** The calls a method has added to the log of [before]. *)
Definition issued (before after : AnimatedGifTexture) : list Call :=
  skipn (List.length (calls before)) (calls after).

Definition is_StopRenderLoop (c : Call) : bool :=
  match c with StopRenderLoop => true | _ => false end.

Definition is_DisposeFrameTexture (c : Call) : bool :=
  match c with DisposeFrameTexture _ => true | _ => false end.

(** The release of the program (effect wrapper) or of the geometry (effect
    renderer). *)
Definition is_DisposeEffect (c : Call) : bool :=
  match c with
  | DisposeEffectWrapper | DisposeEffectRenderer => true
  | _ => false
  end.

Definition is_DisposeRenderTarget (c : Call) : bool :=
  match c with DisposeRenderTarget => true | _ => false end.

Definition is_SuperDispose (c : Call) : bool :=
  match c with SuperDispose => true | _ => false end.

(** Every call of kind [p] comes before every call of kind [q]. *)
Fixpoint allBefore (p q : Call -> bool) (l : list Call) : bool :=
  match l with
  | [] => true
  | c :: rest =>
      (if q c then negb (existsb p rest) else true) && allBefore p q rest
  end.

(** The order of releases in the spec's words: the tick callback, then the
    patch textures, then the program and geometry, then the accumulation
    surface. *)
Definition specDisposeOrder (l : list Call) : bool :=
  allBefore is_StopRenderLoop is_DisposeFrameTexture l &&
  allBefore is_DisposeFrameTexture is_DisposeEffect l &&
  allBefore is_DisposeEffect is_DisposeRenderTarget l.

(** The order of releases [dispose] is written in: the tick callback, then
    the program and geometry, then the patch textures, then the render
    target, then the base class. *)
Definition codeDisposeOrder (l : list Call) : bool :=
  allBefore is_StopRenderLoop is_DisposeEffect l &&
  allBefore is_DisposeEffect is_DisposeFrameTexture l &&
  allBefore is_DisposeFrameTexture is_DisposeRenderTarget l &&
  allBefore is_DisposeRenderTarget is_SuperDispose l.

(** A failure with an error of the class's own making, as opposed to a
    [TypeError] of the language. *)
Definition failsWithOwnError (r : Outcome unit) : Prop :=
  exists (message : string) (o : AnimatedGifTexture), r = Throw (Error message) o.

(** What every tick keeps true of an object in play: the texture is ready
    exactly when a draw has been issued, and the callback has run once if
    the texture is ready and a callback was given, never otherwise. *)
Definition Settled (o : AnimatedGifTexture) : Prop :=
  ready o = existsb is_Render (calls o) /\
  onLoad_runs o = (if ready o && _onLoad o then 1 else 0)%nat.

Module Sample.

Local Open Scope Q_scope.

Definition frameA : GifFrame := mkGifFrame (mkDims 4 4 0 0) [] 100 None None.
Definition frameB : GifFrame := mkGifFrame (mkDims 2 2 1 1) [] 50 None None.
Definition frameC : GifFrame := mkGifFrame (mkDims 1 3 0 3) [] 200 None None.

Definition constructed : AnimatedGifTexture := after (construct "a.gif" true).

Definition loaded : AnimatedGifTexture :=
  after (onFileLoaded [frameA; frameB; frameC] constructed).

(** The loaded object after its first tick, at time 0, effect compiled. *)
Definition started : AnimatedGifTexture :=
  after (_renderFrame (mkTick 0 0 true) loaded).

End Sample.

(* ================================================================== *)
(** ** Runs of a loaded object *)

(** The object after construction, the load of [f0 :: rest] and the ticks
    [ts]. *)
Definition played (url : string) (cb : bool) (f0 : GifFrame)
           (rest : list GifFrame) (ts : list Tick) : AnimatedGifTexture :=
  after (runTicks ts (after (onFileLoaded (f0 :: rest)
                               (after (construct url cb))))).

Definition is_SetViewport (c : Call) : bool :=
  match c with SetViewport => true | _ => false end.

(** The calls a tick can make: a draw, the viewport reset, the callback. *)
Definition is_tickCall (c : Call) : bool :=
  is_Render c || is_SetViewport c || is_OnLoad c.

(** The handles of the raw textures a log creates, in order. *)
Definition createdTextures (l : list Call) : list InternalTexture :=
  flat_map (fun c => match c with
                     | CreateRawTexture id _ _ => [id]
                     | _ => []
                     end) l.

(** The handles a log releases through [frame.texture.dispose()]. *)
Definition disposedTextures (l : list Call) : list InternalTexture :=
  flat_map (fun c => match c with
                     | DisposeFrameTexture id => [id]
                     | _ => []
                     end) l.

(** The sizes of the raw textures a log creates, in order. *)
Definition createdSizes (l : list Call) : list (Z * Z) :=
  flat_map (fun c => match c with
                     | CreateRawTexture _ w h => [(w, h)]
                     | _ => []
                     end) l.

Definition is_RunRenderLoop (c : Call) : bool :=
  match c with RunRenderLoop => true | _ => false end.

(** The first [m] entries of the frames repeated in a loop. *)
Definition looped (fs : list GifFrame) (m : nat) : list (option GifFrame) :=
  map (fun k => nth_error fs (k mod List.length fs)) (seq 0 m).

(** The clock never reads less at the test of a tick than it did at the
    end of the tick before; [last] is the reading the run starts from. *)
Fixpoint clockChain (last : Q) (ts : list Tick) : Prop :=
  match ts with
  | [] => True
  | t :: rest => (last <= now_test t)%Q /\ clockChain (now_drawn t) rest
  end.

(** The patch lies within the canvas. *)
Definition withinCanvas (canvas d : Dims) : Prop :=
  (0 <= left d)%Z /\ (0 <= top d)%Z /\
  (0 <= width d)%Z /\ (0 <= height d)%Z /\
  (left d + width d <= width canvas)%Z /\
  (top d + height d <= height canvas)%Z.

(** A frame is current, it is the one just before the next index in the
    loop, and the time of its draw is recorded. *)
Definition Showing (o : AnimatedGifTexture) (fs : list GifFrame) : Prop :=
  exists (f : GifFrame) (d : Q),
    _currentFrame o = Some f /\
    nth_error fs ((_nextFrameIndex o + List.length fs - 1) mod List.length fs)
    = Some f /\
    _previousDate o = Some d.

(** The draws so far are the frames in order, looping, and the next index
    is the number of draws modulo the number of frames. *)
Definition InOrder (o : AnimatedGifTexture) (fs : list GifFrame) : Prop :=
  map Some (drawn o) = looped fs (List.length (drawn o)) /\
  _nextFrameIndex o = (List.length (drawn o) mod List.length fs)%nat.

(** Before the tick [ts] starts with, the current frame, if any, is one of
    [fs] and was drawn no later than that tick's clock reading. *)
Definition OnTime (o : AnimatedGifTexture) (fs : list GifFrame)
           (ts : list Tick) : Prop :=
  match _currentFrame o with
  | None => True
  | Some cf =>
      In cf fs /\
      exists p : Q,
        _previousDate o = Some p /\
        match ts with
        | [] => True
        | t :: _ => (p <= now_test t)%Q
        end
  end.

(** The clip-space coordinate of grid line [n] of a target [size] pixels
    wide (or high): the line between pixel [n - 1] and pixel [n]. *)
Definition gridLine (n size : Z) : Q :=
  (inject_Z (2 * n) / inject_Z size - 1)%Q.

(** The texture coordinate of the centre of texel [k] in a texture [n]
    texels wide (or high). *)
Definition texelCentre (k n : Z) : Q :=
  (inject_Z (2 * k + 1) / inject_Z (2 * n))%Q.

(* ================================================================== *)
(** ** The page script *)

(** [app.ts]: the list of post-processes and the click handler that steps
    through them. *)
Module App.

Inductive PostProcess : Type :=
| passPostProcess
| grainPostProcess
| imageProcessingPostProcess
| blackAndWhitePostProcess.

Definition allEffects : list PostProcess :=
  [passPostProcess; grainPostProcess; imageProcessingPostProcess;
   blackAndWhitePostProcess].

(** [switchEffectButton.onclick]:
    [currentEffectIndex = ++currentEffectIndex % allEffects.length]. *)
Definition onclick (currentEffectIndex : nat) : nat :=
  (S currentEffectIndex mod List.length allEffects)%nat.

(** The index after [n] clicks, starting from the initial 0. *)
Definition afterClicks (n : nat) : nat := Nat.iter n onclick 0%nat.

(** [allEffects[currentEffectIndex]], the effect the render loop passes to
    the filter; [None] stands for [undefined]. *)
Definition currentEffect (currentEffectIndex : nat) : option PostProcess :=
  nth_error allEffects currentEffectIndex.

End App.

(* ================================================================== *)
(** * Properties *)

(** ** Numbers *)

Lemma ltb_lt (p q : Q) : Num.ltb p q = true <-> (p < q)%Q.
Proof.
  unfold Num.ltb. rewrite negb_true_iff.
  split; intro H.
  - apply Qnot_le_lt. intro Hle. apply Qle_bool_iff in Hle. congruence.
  - destruct (Qle_bool q p) eqn:E; [ | reflexivity ].
    apply Qle_bool_iff in E. exfalso. exact (Qlt_not_le _ _ H E).
Qed.

Lemma ltb_ge (p q : Q) : Num.ltb p q = false <-> (q <= p)%Q.
Proof.
  unfold Num.ltb. rewrite negb_false_iff. apply Qle_bool_iff.
Qed.

(** ** The index update *)

Lemma bump_lt (len i : nat) : (0 < len)%nat -> (bump len i < len)%nat.
Proof.
  intro Hlen. unfold bump.
  destruct (Nat.leb_spec len (S i)); lia.
Qed.

Lemma bump_mod (len i : nat) :
  (i < len)%nat -> bump len i = ((i + 1) mod len)%nat.
Proof.
  intro Hi. unfold bump.
  destruct (Nat.leb_spec len (S i)) as [Hle | Hgt].
  - assert (Hlast : (i + 1 = len)%nat) by lia.
    rewrite Hlast. symmetry. apply Nat.Div0.mod_same.
  - rewrite Nat.mod_small by lia. lia.
Qed.

Lemma iter_bump (len k i : nat) :
  (i < len)%nat -> Nat.iter k (bump len) i = ((i + k) mod len)%nat.
Proof.
  intro Hi. induction k as [ | k IH ].
  - simpl. rewrite Nat.add_0_r. symmetry. apply Nat.mod_small. exact Hi.
  - simpl. rewrite IH.
    rewrite bump_mod by (apply Nat.mod_upper_bound; lia).
    rewrite Nat.Div0.add_mod_idemp_l.
    f_equal. lia.
Qed.

(** ** Loading *)

Lemma createFramesResources_runs (canvas : Dims) (fs : list GifFrame) :
  forall o : AnimatedGifTexture,
    createFramesResources canvas fs o =
    Return (withResources canvas (allocated o) fs)
           (set_calls (calls o ++ resourceCalls (allocated o) fs)
                      (set_allocated (allocated o + List.length fs) o)).
Proof.
  induction fs as [ | frame rest IH ]; intro o.
  - destruct o. cbn. rewrite app_nil_r, Nat.add_0_r. reflexivity.
  - cbn [createFramesResources]. unfold bind at 1.
    unfold createFrameResources, createRawTexture, bind, get, modify, call, ret.
    cbn. rewrite IH. cbn.
    rewrite <- !app_assoc. cbn.
    replace (allocated o + S (List.length rest))%nat
      with (S (allocated o + List.length rest))%nat by lia.
    reflexivity.
Qed.

Lemma resourceCalls_no_onLoad (fs : list GifFrame) :
  forall n, filter is_OnLoad (resourceCalls n fs) = [].
Proof.
  induction fs as [ | f rest IH ]; intro n; cbn; [ reflexivity | apply IH ].
Qed.

(** Loading a non-empty sequence into a freshly constructed object. *)
Lemma onFileLoaded_runs (url : string) (cb : bool) (f0 : GifFrame)
      (rest : list GifFrame) :
  let fs' := withResources (dims f0) 1 (f0 :: rest) in
  exists o : AnimatedGifTexture,
    onFileLoaded (f0 :: rest) (after (construct url cb)) = Return tt o /\
    _frames o = Some fs' /\
    _currentFrame o = None /\
    _nextFrameIndex o = 0%nat /\
    _previousDate o = None /\
    _onLoad o = cb /\
    _renderTarget o = Some (dims f0) /\
    ready o = false /\
    _texture o <> None /\
    onLoad_runs o = 0%nat /\
    drawn o = [].
Proof.
  cbn zeta.
  unfold onFileLoaded, _parseGifData, _createGifResources.
  unfold bind at 1. cbn [modify construct after].
  unfold bind at 1. unfold bind at 1. cbn [get set_frames _frames].
  unfold bind at 1.
  rewrite createFramesResources_runs.
  cbv -[withResources resourceCalls Placement.worldMatrixOf app filter flat_map
        List.length].
  eexists. split; [ reflexivity | ].
  cbv -[withResources resourceCalls Placement.worldMatrixOf app filter flat_map
        List.length].
  repeat split; try reflexivity; try congruence.
  - rewrite !filter_app. cbn. rewrite resourceCalls_no_onLoad. reflexivity.
  - cbn. generalize 2%nat. induction rest as [ | f r IH ]; intro n; cbn; auto.
Qed.

(** ** One tick *)

Lemma renderFrame_held (o : AnimatedGifTexture) (t : Tick) :
  holds o t = true -> _renderFrame t o = Return tt o.
Proof.
  intro H. unfold _renderFrame, bind, get. rewrite H. reflexivity.
Qed.

(** A tick that passes the delay test, on an object in play: the method
    returns, and this is what it leaves. *)
Lemma renderFrame_advance (o : AnimatedGifTexture) (fs : list GifFrame) (t : Tick) :
  Playing o fs ->
  holds o t = false ->
  exists (f : GifFrame) (o' : AnimatedGifTexture),
    nth_error fs (_nextFrameIndex o) = Some f /\
    _renderFrame t o = Return tt o' /\
    _frames o' = Some fs /\
    _currentFrame o' = Some f /\
    _nextFrameIndex o' = bump (List.length fs) (_nextFrameIndex o) /\
    _previousDate o' = Some (now_drawn t) /\
    _onLoad o' = _onLoad o /\
    _renderTarget o' = _renderTarget o /\
    _texture o' <> None /\
    ready o' = ready o || effect_ready t /\
    calls o' = calls o ++ drawCalls o t f.
Proof.
  intros (Hfs & Hidx & Htex) Hh.
  destruct (nth_error fs (_nextFrameIndex o)) as [ f | ] eqn:Hnth;
    [ | apply nth_error_None in Hnth; lia ].
  destruct (_texture o) as [ tx | ] eqn:Htx; [ | congruence ].
  exists f.
  unfold _renderFrame, bind, get. rewrite Hh, Hfs.
  unfold _drawPatch, drawCalls, ready. rewrite Htx.
  destruct (effect_ready t) eqn:Hr; cbn.
  - rewrite Hnth. cbn. rewrite Htx.
    destruct (isReady tx) eqn:Hready; cbn.
    + eexists. repeat split; cbn; try reflexivity; try congruence.
      * now rewrite Htx, Hready.
      * now rewrite <- app_assoc.
    + unfold on_texture, bind, get; cbn. rewrite Htx. cbn.
      destruct (_onLoad o) eqn:Hcb; cbn;
        eexists; repeat split; cbn; try reflexivity; try congruence;
        now rewrite <- ?app_assoc.
  - eexists. repeat split; cbn; try reflexivity; try congruence.
    + rewrite Htx. now rewrite orb_false_r.
    + now rewrite app_nil_r.
Qed.

Lemma renderFrame_playing (o : AnimatedGifTexture) (fs : list GifFrame) (t : Tick) :
  Playing o fs ->
  returned (_renderFrame t o) = true /\ Playing (after (_renderFrame t o)) fs.
Proof.
  intro HP. destruct (holds o t) eqn:Hh.
  - rewrite (renderFrame_held _ _ Hh). cbn. auto.
  - destruct (renderFrame_advance o fs t HP Hh)
      as (f & o' & _ & Hrun & Hfs & _ & Hidx & _ & _ & _ & Htex & _).
    rewrite Hrun. cbn. repeat split; auto.
    rewrite Hidx. apply bump_lt. destruct HP as (_ & Hlt & _). lia.
Qed.

Lemma runTicks_cons (t : Tick) (ts : list Tick) (o : AnimatedGifTexture) :
  returned (_renderFrame t o) = true ->
  runTicks (t :: ts) o = runTicks ts (after (_renderFrame t o)).
Proof.
  cbn [runTicks]. unfold bind.
  destruct (_renderFrame t o); cbn; [ reflexivity | discriminate ].
Qed.

Lemma runTicks_playing (ts : list Tick) :
  forall (o : AnimatedGifTexture) (fs : list GifFrame),
    Playing o fs ->
    returned (runTicks ts o) = true /\ Playing (after (runTicks ts o)) fs.
Proof.
  induction ts as [ | t ts IH ]; intros o fs HP.
  - cbn. auto.
  - destruct (renderFrame_playing o fs t HP) as [Hret HP'].
    rewrite (runTicks_cons _ _ _ Hret). apply IH. exact HP'.
Qed.

Lemma runTicks_app (ts : list Tick) :
  forall (us : list Tick) (o : AnimatedGifTexture) (fs : list GifFrame),
    Playing o fs ->
    runTicks (ts ++ us) o = runTicks us (after (runTicks ts o)).
Proof.
  induction ts as [ | t ts IH ]; intros us o fs HP.
  - reflexivity.
  - destruct (renderFrame_playing o fs t HP) as [Hret HP'].
    cbn [app]. rewrite !(runTicks_cons _ _ _ Hret).
    apply (IH us _ fs HP').
Qed.

Lemma runTicks_single (t : Tick) (o : AnimatedGifTexture) :
  runTicks [t] o = match _renderFrame t o with
                   | Return _ o' => Return tt o'
                   | Throw e o' => Throw e o'
                   end.
Proof. reflexivity. Qed.

(** While the delay test holds the frame, a run of ticks changes nothing. *)
Lemma runTicks_held (o : AnimatedGifTexture) (held : list Tick) :
  Forall (fun h => holds o h = true) held ->
  runTicks held o = Return tt o.
Proof.
  induction 1 as [ | h held Hh _ IH ].
  - reflexivity.
  - cbn [runTicks]. unfold bind. rewrite (renderFrame_held _ _ Hh). exact IH.
Qed.

Lemma allAdvance_index (ts : list Tick) :
  forall (o : AnimatedGifTexture) (fs : list GifFrame),
    Playing o fs ->
    allAdvance o ts = true ->
    _nextFrameIndex (after (runTicks ts o)) =
    Nat.iter (List.length ts) (bump (List.length fs)) (_nextFrameIndex o).
Proof.
  induction ts as [ | t ts IH ]; intros o fs HP Hall.
  - reflexivity.
  - cbn [allAdvance] in Hall. apply andb_true_iff in Hall.
    destruct Hall as [Hh Hall]. apply negb_true_iff in Hh.
    destruct (renderFrame_playing o fs t HP) as [Hret HP'].
    rewrite (runTicks_cons _ _ _ Hret).
    rewrite (IH _ fs HP' Hall).
    destruct (renderFrame_advance o fs t HP Hh)
      as (f & o' & _ & Hrun & _ & _ & Hidx & _).
    rewrite Hrun. cbn [after]. rewrite Hidx.
    cbn [List.length]. symmetry. apply Nat.iter_succ_r.
Qed.

(** ** The scheduler *)

(** C1.  While a current frame with delay [d] is displayed and the time
    elapsed since the last advance is below [d], a tick changes nothing:
    neither the frame, nor the index, nor the timestamp, and nothing is
    drawn.  The first tick at which the elapsed time reaches [d] makes the
    frame at the next index current, moves the index on by one (cyclically)
    and records the clock reading of that tick as the time of the advance. *)
Theorem C1_delay_governs_advance :
  forall (o : AnimatedGifTexture) (fs : list GifFrame) (cf : GifFrame)
         (prev : Q) (held : list Tick) (t : Tick),
    Playing o fs ->
    _currentFrame o = Some cf ->
    _previousDate o = Some prev ->
    Forall (fun h => (now_test h - prev < delay cf)%Q) held ->
    (delay cf <= now_test t - prev)%Q ->
    runTicks held o = Return tt o /\
    exists o' : AnimatedGifTexture,
      runTicks (held ++ [t]) o = Return tt o' /\
      _currentFrame o' = nth_error fs (_nextFrameIndex o) /\
      _nextFrameIndex o' = ((_nextFrameIndex o + 1) mod List.length fs)%nat /\
      _previousDate o' = Some (now_drawn t).
Proof.
  intros o fs cf prev held t HP Hcf Hprev Hheld Ht.
  assert (Hstay : runTicks held o = Return tt o).
  { apply runTicks_held.
    eapply Forall_impl; [ | exact Hheld ].
    intros h Hlt. unfold holds, Num.elapsed_lt. rewrite Hcf, Hprev.
    apply ltb_lt. exact Hlt. }
  split; [ exact Hstay | ].
  assert (Hgo : holds o t = false).
  { unfold holds, Num.elapsed_lt. rewrite Hcf, Hprev. apply ltb_ge. exact Ht. }
  destruct (renderFrame_advance o fs t HP Hgo)
    as (f & o' & Hnth & Hrun & _ & Hcur & Hidx & Hdate & _).
  exists o'.
  rewrite (runTicks_app held [t] o fs HP), Hstay. cbn [after].
  rewrite runTicks_single, Hrun.
  repeat split.
  - rewrite Hcur, Hnth. reflexivity.
  - rewrite Hidx. apply bump_mod. destruct HP as (_ & Hlt & _). exact Hlt.
  - exact Hdate.
Qed.

Lemma C1_delay_governs_advance_witness :
  exists o' : AnimatedGifTexture,
    runTicks ([mkTick 16 16 true; mkTick 99 99 true] ++ [mkTick 100 101 true])
             Sample.started = Return tt o' /\
    _nextFrameIndex o' = 2%nat /\
    _previousDate o' = Some 101%Q.
Proof.
  destruct (C1_delay_governs_advance
              Sample.started
              (withResources (mkDims 4 4 0 0) 1
                 [Sample.frameA; Sample.frameB; Sample.frameC])
              (mkGifFrame (mkDims 4 4 0 0) [] 100 (Some 1%nat)
                 (Some (Placement.worldMatrixOf (mkDims 4 4 0 0) (mkDims 4 4 0 0))))
              0%Q [mkTick 16 16 true; mkTick 99 99 true] (mkTick 100 101 true))
    as (_ & o' & Hrun & _ & Hidx & Hdate).
  - repeat split; [ vm_compute; lia | vm_compute; discriminate ].
  - reflexivity.
  - reflexivity.
  - repeat constructor.
  - vm_compute. discriminate.
  - exists o'. repeat split; assumption.
Defined.

(** C2.  On a sequence of [N] frames the index update is the successor
    modulo [N]: it maps [i] to [(i + 1) mod N], the index after the last
    frame is 0, and [N] advances in a row, whether counted on the index
    alone or on the ticks of a running object, bring the index back to
    where it started. *)
Theorem C2_cyclic_index :
  forall (o : AnimatedGifTexture) (fs : list GifFrame) (ts : list Tick),
    Playing o fs ->
    List.length ts = List.length fs ->
    allAdvance o ts = true ->
    let N := List.length fs in
    (forall i : nat, (i < N)%nat -> bump N i = ((i + 1) mod N)%nat) /\
    bump N (N - 1) = 0%nat /\
    (forall i : nat, (i < N)%nat -> Nat.iter N (bump N) i = i) /\
    _nextFrameIndex (after (runTicks ts o)) = _nextFrameIndex o.
Proof.
  intros o fs ts HP Hlen Hall N.
  assert (Hcycle : forall i : nat, (i < N)%nat -> Nat.iter N (bump N) i = i).
  { intros i Hi. rewrite iter_bump by exact Hi.
    rewrite <- (Nat.mul_1_l N) at 1.
    rewrite Nat.Div0.mod_add. apply Nat.mod_small. exact Hi. }
  repeat split.
  - intros i Hi. apply bump_mod. exact Hi.
  - unfold bump. destruct (Nat.leb_spec N (S (N - 1))); [ reflexivity | lia ].
  - exact Hcycle.
  - rewrite (allAdvance_index ts o fs HP Hall), Hlen.
    apply Hcycle. destruct HP as (_ & Hlt & _). exact Hlt.
Qed.

Lemma C2_cyclic_index_witness :
  bump 3 2 = 0%nat /\
  _nextFrameIndex
    (after (runTicks [mkTick 100 100 true; mkTick 150 150 true;
                      mkTick 350 350 true] Sample.started)) = 1%nat.
Proof.
  destruct (C2_cyclic_index
              Sample.started
              (withResources (mkDims 4 4 0 0) 1
                 [Sample.frameA; Sample.frameB; Sample.frameC])
              [mkTick 100 100 true; mkTick 150 150 true; mkTick 350 350 true])
    as (_ & Hlast & _ & Hback).
  - repeat split; [ vm_compute; lia | vm_compute; discriminate ].
  - reflexivity.
  - vm_compute. reflexivity.
  - split; [ exact Hlast | exact Hback ].
Defined.

(** C10, as the code has it.  On the first tick after the file has loaded
    there is no current frame, so the delay test cannot hold the tick,
    whatever the delay of frame 0 and whatever the clock reads: frame 0
    becomes current and is handed to [_drawPatch], which draws it on that
    tick when the patch effect is compiled and draws nothing when it is
    not.  From the next tick on, the tick is held exactly when the time
    since that first tick is below the delay of frame 0. *)
Theorem C10_first_tick_takes_frame_zero :
  forall (url : string) (cb : bool) (f0 : GifFrame) (rest : list GifFrame)
         (t : Tick),
    let o1 := after (onFileLoaded (f0 :: rest) (after (construct url cb))) in
    let frame0 := mkGifFrame (dims f0) (patch f0) (delay f0) (Some 1%nat)
                    (Some (Placement.worldMatrixOf (dims f0) (dims f0))) in
    _currentFrame o1 = None /\
    holds o1 t = false /\
    exists o2 : AnimatedGifTexture,
      _renderFrame t o1 = Return tt o2 /\
      _currentFrame o2 = Some frame0 /\
      drawn o2 = (if effect_ready t then [frame0] else []) /\
      _previousDate o2 = Some (now_drawn t) /\
      forall t2 : Tick,
        holds o2 t2 = Num.ltb (now_test t2 - now_drawn t) (delay f0) /\
        if holds o2 t2
        then _renderFrame t2 o2 = Return tt o2
        else _previousDate (after (_renderFrame t2 o2)) = Some (now_drawn t2).
Proof.
  intros url cb f0 rest t o1 frame0.
  destruct (onFileLoaded_runs url cb f0 rest)
    as (o & Hrun & Hfs & Hcur & Hidx & Hdate & Hcb & Hrt & Hready & Htex
        & Hruns & Hdrawn).
  assert (Ho1 : o1 = o) by (subst o1; rewrite Hrun; reflexivity).
  rewrite Ho1. clear Ho1 o1.
  assert (Hh : holds o t = false) by (unfold holds; rewrite Hcur; reflexivity).
  assert (HP : Playing o (withResources (dims f0) 1 (f0 :: rest))).
  { repeat split; [ exact Hfs | rewrite Hidx; cbn; lia | exact Htex ]. }
  destruct (renderFrame_advance o _ t HP Hh)
    as (f & o2 & Hnth & Hstep & _ & Hcur2 & _ & Hdate2 & _ & _ & _ & _ & Hcalls).
  rewrite Hidx in Hnth. cbn in Hnth. injection Hnth as Hf.
  fold frame0 in Hf. subst f.
  repeat split; [ exact Hcur | exact Hh | ].
  assert (HP2 : Playing o2 (withResources (dims f0) 1 (f0 :: rest))).
  { pose proof (renderFrame_playing o _ t HP) as [_ HP2].
    rewrite Hstep in HP2. exact HP2. }
  exists o2. repeat split; try assumption.
  - unfold drawn in *. rewrite Hcalls, flat_map_app, Hdrawn.
    unfold drawCalls. destruct (effect_ready t); [ | reflexivity ].
    cbn. destruct (negb (ready o) && _onLoad o); reflexivity.
  - unfold holds, Num.elapsed_lt. rewrite Hcur2, Hdate2. reflexivity.
  - destruct (holds o2 t2) eqn:Hh2.
    + apply renderFrame_held. exact Hh2.
    + destruct (renderFrame_advance o2 _ t2 HP2 Hh2)
        as (f & o3 & _ & Hstep3 & _ & _ & _ & Hdate3 & _).
      rewrite Hstep3. exact Hdate3.
Qed.

(** C10, as stated, fails: on the first tick after the load the delay test
    lets the tick through, yet with the patch effect not compiled frame 0 is
    not drawn on that tick. *)
Lemma C10_first_tick_may_not_draw :
  let t := mkTick 0 0 false in
  holds Sample.loaded t = false /\
  returned (_renderFrame t Sample.loaded) = true /\
  drawn (after (_renderFrame t Sample.loaded)) = [].
Proof.
  cbv zeta. repeat split; vm_compute; reflexivity.
Qed.

(** ** Readiness *)

Lemma renderFrame_ready (o : AnimatedGifTexture) (fs : list GifFrame) (t : Tick) :
  Playing o fs ->
  Settled o ->
  let o' := after (_renderFrame t o) in
  Settled o' /\
  _onLoad o' = _onLoad o /\
  ready o' = ready o || (negb (holds o t) && effect_ready t) /\
  onLoad_runs o' =
  (onLoad_runs o + (if negb (ready o) && ready o' && _onLoad o then 1 else 0))%nat.
Proof.
  intros HP (Hdraw & Hruns) o'. subst o'.
  destruct (holds o t) eqn:Hh.
  - rewrite (renderFrame_held _ _ Hh). cbn [after negb andb].
    rewrite orb_false_r.
    repeat split; try assumption.
    destruct (ready o); cbn; lia.
  - destruct (renderFrame_advance o fs t HP Hh)
      as (f & o' & _ & Hrun & _ & _ & _ & _ & Hcb & _ & _ & Hready & Hcalls).
    rewrite Hrun. cbn [after negb andb].
    unfold Settled, onLoad_runs in *.
    rewrite Hcalls, Hready, Hcb, existsb_app, filter_app, length_app, Hruns.
    rewrite <- Hdraw. unfold drawCalls.
    destruct (effect_ready t), (ready o), (_onLoad o); cbn; auto.
Qed.

Lemma runTicks_settled (ts : list Tick) :
  forall (o : AnimatedGifTexture) (fs : list GifFrame),
    Playing o fs ->
    Settled o ->
    Settled (after (runTicks ts o)) /\
    _onLoad (after (runTicks ts o)) = _onLoad o.
Proof.
  induction ts as [ | t ts IH ]; intros o fs HP HS.
  - cbn. auto.
  - destruct (renderFrame_playing o fs t HP) as [Hret HP'].
    destruct (renderFrame_ready o fs t HP HS) as (HS' & Hcb & _).
    rewrite (runTicks_cons _ _ _ Hret).
    destruct (IH _ fs HP' HS') as [HS'' Hcb'].
    split; [ exact HS'' | congruence ].
Qed.

(** C4.  The texture is not ready when constructed, nor when its file has
    loaded.  Over any run of ticks after that, no tick throws; a tick makes
    the texture ready exactly when it draws (it passes the delay test and
    the patch effect is compiled), and a ready texture stays ready.  The
    completion callback has run once as soon as the texture is ready and
    never before: it runs on the tick that turns readiness from false to
    true, and on no other. *)
Theorem C4_ready_once :
  forall (url : string) (f0 : GifFrame) (rest : list GifFrame)
         (ts : list Tick) (t : Tick),
    let o0 := after (construct url true) in
    let o1 := after (onFileLoaded (f0 :: rest) o0) in
    let o2 := after (runTicks ts o1) in
    let o3 := after (_renderFrame t o2) in
    ready o0 = false /\
    ready o1 = false /\
    onLoad_runs o1 = 0%nat /\
    returned (runTicks ts o1) = true /\
    ready o2 = existsb is_Render (calls o2) /\
    onLoad_runs o2 = (if ready o2 then 1 else 0)%nat /\
    ready o3 = ready o2 || (negb (holds o2 t) && effect_ready t) /\
    onLoad_runs o3 =
    (onLoad_runs o2 + (if negb (ready o2) && ready o3 then 1 else 0))%nat.
Proof.
  intros url f0 rest ts t o0 o1 o2 o3.
  destruct (onFileLoaded_runs url true f0 rest)
    as (o & Hrun & Hfs & Hcur & Hidx & Hdate & Hcb & Hrt & Hready & Htex
        & Hruns & Hdrawn).
  assert (Ho1 : o1 = o) by (subst o1 o0; rewrite Hrun; reflexivity).
  assert (HP : Playing o1 (withResources (dims f0) 1 (f0 :: rest))).
  { rewrite Ho1. repeat split; [ exact Hfs | rewrite Hidx; cbn; lia | exact Htex ]. }
  assert (HS : Settled o1).
  { rewrite Ho1. split.
    - rewrite Hready. symmetry. apply not_true_is_false. intro Hex.
      apply existsb_exists in Hex. destruct Hex as (c & Hin & Hc).
      destruct c; try discriminate.
      assert (Hd : In f (drawn o)).
      { unfold drawn. apply in_flat_map. exists (Render f). cbn. auto. }
      rewrite Hdrawn in Hd. exact Hd.
    - rewrite Hready, Hruns. reflexivity. }
  destruct (runTicks_playing ts o1 _ HP) as [Hret HP2].
  destruct (runTicks_settled ts o1 _ HP HS) as [HS2 Hcb2].
  fold o2 in HP2, HS2, Hcb2.
  assert (Hcb2' : _onLoad o2 = true) by (rewrite Hcb2, Ho1; exact Hcb).
  destruct (renderFrame_ready o2 _ t HP2 HS2) as (_ & _ & Hready3 & Hruns3).
  fold o3 in Hready3, Hruns3.
  destruct HS2 as [Hdraw2 Hruns2].
  rewrite Hcb2', !andb_true_r in *.
  split; [ reflexivity | ].
  split; [ rewrite Ho1; exact Hready | ].
  split; [ rewrite Ho1; exact Hruns | ].
  repeat split; assumption.
Qed.

(** C6.  A tick on which the patch effect is not yet compiled is not a
    no-op.  On three frames, with the effect not compiled at the first tick:
    [_drawPatch] returns without drawing, and [_renderFrame] still makes
    frame 0 current, records the time and moves the index to 1.  The next
    tick (16 ms later, effect compiled) is held by the delay test and draws
    nothing; the tick after the delay of frame 0 draws frame 1.  Frame 0 is
    not drawn. *)
Theorem C6_failed_draw_consumes_the_frame :
  let o1 := after (_renderFrame (mkTick 0 0 false) Sample.loaded) in
  let o3 := after (runTicks [mkTick 16 16 true; mkTick 100 100 true] o1) in
  returned (_renderFrame (mkTick 0 0 false) Sample.loaded) = true /\
  o1 <> Sample.loaded /\
  _nextFrameIndex o1 = 1%nat /\
  _previousDate o1 = Some 0%Q /\
  drawn o1 = [] /\
  _renderFrame (mkTick 16 16 true) o1 = Return tt o1 /\
  map dims (drawn o3) = [dims Sample.frameB] /\
  ready o3 = true.
Proof.
  cbv zeta. repeat split; try (vm_compute; reflexivity).
  intro H. apply (f_equal _nextFrameIndex) in H. vm_compute in H. discriminate.
Qed.

(** ** Lifecycle *)

Lemma disposeFrameTextures_runs (fs : list GifFrame) :
  forall o : AnimatedGifTexture,
    Forall (fun f => texture f <> None) fs ->
    disposeFrameTextures fs o =
    Return tt (set_calls
                 (calls o ++ flat_map (fun f => match texture f with
                                               | Some id => [DisposeFrameTexture id]
                                               | None => []
                                               end) fs) o).
Proof.
  induction fs as [ | f rest IH ]; intros o Hall.
  - destruct o. cbn. rewrite app_nil_r. reflexivity.
  - inversion Hall as [ | ? ? Hf Hrest ]; subst.
    cbn [disposeFrameTextures flat_map]. unfold bind at 1.
    destruct (texture f) as [ id | ]; [ | congruence ].
    unfold call at 1, modify. rewrite (IH _ Hrest).
    cbn. rewrite <- app_assoc. reflexivity.
Qed.

Lemma dispose_runs (o : AnimatedGifTexture) (fs : list GifFrame) (rt : Dims) :
  _frames o = Some fs ->
  Forall (fun f => texture f <> None) fs ->
  _renderTarget o = Some rt ->
  dispose o = Return tt (set_calls (calls o ++ disposeCalls fs) o).
Proof.
  intros Hfs Hall Hrt.
  unfold dispose, bind, call, modify, get. cbn.
  rewrite Hfs, Hrt. rewrite (disposeFrameTextures_runs fs _ Hall).
  cbn. unfold disposeCalls. rewrite <- !app_assoc. cbn.
  rewrite <- ?app_assoc. reflexivity.
Qed.

Lemma withResources_textures (canvas : Dims) (fs : list GifFrame) :
  forall n : nat,
    Forall (fun f => texture f <> None) (withResources canvas n fs) /\
    flat_map (fun f => match texture f with
                       | Some id => [DisposeFrameTexture id]
                       | None => []
                       end) (withResources canvas n fs)
    = map DisposeFrameTexture (seq n (List.length fs)).
Proof.
  induction fs as [ | f rest IH ]; intro n; cbn.
  - split; [ constructor | reflexivity ].
  - destruct (IH (S n)) as [Hall Hmap]. split.
    + constructor; [ discriminate | exact Hall ].
    + now rewrite Hmap.
Qed.

Lemma renderFrame_renderTarget (o : AnimatedGifTexture) (fs : list GifFrame)
      (t : Tick) :
  Playing o fs ->
  _renderTarget (after (_renderFrame t o)) = _renderTarget o.
Proof.
  intro HP. destruct (holds o t) eqn:Hh.
  - now rewrite (renderFrame_held _ _ Hh).
  - destruct (renderFrame_advance o fs t HP Hh)
      as (f & o' & _ & Hrun & _ & _ & _ & _ & _ & Hrt & _).
    now rewrite Hrun.
Qed.

Lemma runTicks_renderTarget (ts : list Tick) :
  forall (o : AnimatedGifTexture) (fs : list GifFrame),
    Playing o fs ->
    _renderTarget (after (runTicks ts o)) = _renderTarget o.
Proof.
  induction ts as [ | t ts IH ]; intros o fs HP.
  - reflexivity.
  - destruct (renderFrame_playing o fs t HP) as [Hret HP'].
    rewrite (runTicks_cons _ _ _ Hret), (IH _ fs HP').
    apply (renderFrame_renderTarget o fs t HP).
Qed.

Lemma app_issued (o : AnimatedGifTexture) (l : list Call) :
  issued o (set_calls (calls o ++ l) o) = l.
Proof.
  unfold issued. cbn. rewrite skipn_app, skipn_all, Nat.sub_diag. reflexivity.
Qed.

Lemma existsb_textures (p : Call -> bool) (ids : list InternalTexture)
      (rest : list Call) :
  (forall id, p (DisposeFrameTexture id) = false) ->
  existsb p (map DisposeFrameTexture ids ++ rest) = existsb p rest.
Proof.
  intro Hp. induction ids as [ | id ids IH ]; cbn; [ reflexivity | ].
  now rewrite Hp, IH.
Qed.

Lemma allBefore_textures (p q : Call -> bool) (ids : list InternalTexture)
      (rest : list Call) :
  (forall id, q (DisposeFrameTexture id) = false) ->
  allBefore p q (map DisposeFrameTexture ids ++ rest) = allBefore p q rest.
Proof.
  intro Hq. induction ids as [ | id ids IH ]; cbn; [ reflexivity | ].
  now rewrite Hq, IH.
Qed.

Lemma allBefore_onto_textures (p : Call -> bool) (ids : list InternalTexture)
      (rest : list Call) :
  (forall id, p (DisposeFrameTexture id) = false) ->
  existsb p rest = false ->
  allBefore p is_DisposeFrameTexture rest = true ->
  allBefore p is_DisposeFrameTexture (map DisposeFrameTexture ids ++ rest) = true.
Proof.
  intros Hp Hnone Hrest. induction ids as [ | id ids IH ]; cbn; [ exact Hrest | ].
  rewrite (existsb_textures p ids rest Hp), Hnone, IH. reflexivity.
Qed.

Lemma disposeCalls_order (ids : list InternalTexture) :
  codeDisposeOrder
    ([StopRenderLoop; DisposeEffectWrapper; DisposeEffectRenderer]
       ++ map DisposeFrameTexture ids ++ [DisposeRenderTarget; SuperDispose])
  = true.
Proof.
  unfold codeDisposeOrder. cbn.
  rewrite !existsb_textures by reflexivity.
  rewrite allBefore_onto_textures by reflexivity.
  rewrite !allBefore_textures by reflexivity.
  reflexivity.
Qed.

(** C8, as the code has it.  On an object whose file has loaded, after any
    number of ticks, [dispose] returns and releases in this order: the tick
    callback is deregistered, then the effect wrapper (the program) and the
    effect renderer (the geometry) are released, then the patch texture of
    every frame in frame order, then the render target, then the base
    class. *)
Theorem C8_dispose_order_of_the_code :
  forall (url : string) (cb : bool) (f0 : GifFrame) (rest : list GifFrame)
         (ts : list Tick),
    let o := after (runTicks ts (after (onFileLoaded (f0 :: rest)
                                          (after (construct url cb))))) in
    exists o' : AnimatedGifTexture,
      dispose o = Return tt o' /\
      issued o o' =
        [StopRenderLoop; DisposeEffectWrapper; DisposeEffectRenderer]
          ++ map DisposeFrameTexture (seq 1 (S (List.length rest)))
          ++ [DisposeRenderTarget; SuperDispose] /\
      codeDisposeOrder (issued o o') = true /\
      specDisposeOrder (issued o o') = false.
Proof.
  intros url cb f0 rest ts o.
  destruct (onFileLoaded_runs url cb f0 rest)
    as (o1 & Hrun & Hfs & Hcur & Hidx & Hdate & Hcb & Hrt & Hready & Htex & _).
  assert (HP : Playing o1 (withResources (dims f0) 1 (f0 :: rest))).
  { repeat split; [ exact Hfs | rewrite Hidx; cbn; lia | exact Htex ]. }
  assert (Ho : o = after (runTicks ts o1)) by (subst o; now rewrite Hrun).
  destruct (runTicks_playing ts o1 _ HP) as [_ (Hfs' & _)].
  pose proof (runTicks_renderTarget ts o1 _ HP) as Hrt'.
  rewrite <- Ho in Hfs', Hrt'. rewrite Hrt in Hrt'.
  destruct (withResources_textures (dims f0) (f0 :: rest) 1) as [Hall Hmap].
  exists (set_calls (calls o ++ disposeCalls (withResources (dims f0) 1 (f0 :: rest))) o).
  split; [ exact (dispose_runs o _ (dims f0) Hfs' Hall Hrt') | ].
  rewrite app_issued. unfold disposeCalls. rewrite Hmap.
  split; [ reflexivity | ].
  split; [ apply disposeCalls_order | ].
  unfold specDisposeOrder. cbn.
  rewrite !andb_false_r. reflexivity.
Qed.

(** C8, as stated, fails: on the three-frame sample the releases of
    [dispose] are not in the order "callback, patch textures, program and
    geometry, accumulation surface"; the program and the geometry go before
    the patch textures. *)
Lemma C8_spec_order_fails :
  specDisposeOrder (issued Sample.started (after (dispose Sample.started))) = false /\
  issued Sample.started (after (dispose Sample.started)) =
    [StopRenderLoop; DisposeEffectWrapper; DisposeEffectRenderer;
     DisposeFrameTexture 1%nat; DisposeFrameTexture 2%nat; DisposeFrameTexture 3%nat;
     DisposeRenderTarget; SuperDispose].
Proof.
  split; vm_compute; reflexivity.
Qed.

(** C9.  [dispose] called before the file has loaded does not succeed:
    after the tick callback is deregistered and the effect wrapper and
    renderer are released, iterating the still-null [_frames] throws, so
    neither the placeholder texture nor the base class is released.  The
    load that completes afterwards is not discarded: it stores the frames,
    allocates the patch texture and the render target and registers the
    render loop. *)
Theorem C9_dispose_before_load_throws :
  let o0 := Sample.constructed in
  let o1 := after (dispose o0) in
  let o2 := after (onFileLoaded [Sample.frameA] o1) in
  dispose o0 = Throw (TypeError "this._frames is not iterable") o1 /\
  issued o0 o1 = [StopRenderLoop; DisposeEffectWrapper; DisposeEffectRenderer] /\
  returned (onFileLoaded [Sample.frameA] o1) = true /\
  _frames o2 <> None /\
  issued o1 o2 =
    [CreateRawTexture 1%nat 4 4; UpdateTextureWrappingMode;
     CreateRenderTargetTexture (mkDims 4 4 0 0); ReleaseTexture; SwapAndDie;
     UpdateTextureWrappingMode; RunRenderLoop].
Proof.
  cbv zeta. repeat split; try (vm_compute; reflexivity).
  vm_compute. discriminate.
Qed.

(** C7, as the code has it.  When the decoded sequence is empty the
    constructor has already returned normally; it is the callback run at
    the end of the load that throws, with the language's [TypeError] for
    reading [dims] of the missing frame 0.  It leaves the empty sequence
    stored, the placeholder texture in place and not ready, no render
    target, and it has made no engine call: the render loop is not
    started. *)
Theorem C7_empty_sequence_type_error :
  forall (url : string) (cb : bool),
    let o0 := after (construct url cb) in
    let o1 := after (onFileLoaded [] o0) in
    construct url cb = Return tt o0 /\
    onFileLoaded [] o0 = Throw (TypeError "this._frames[0] is undefined") o1 /\
    _frames o1 = Some [] /\
    _texture o1 = Some (mkTexture 1 1 false) /\
    ready o1 = false /\
    _renderTarget o1 = None /\
    issued o0 o1 = [].
Proof.
  intros url cb. cbv zeta. repeat split; vm_compute; reflexivity.
Qed.

(** C7, as stated, fails: with an empty sequence neither the constructor
    nor the load callback fails with an error of the class's own; the
    constructor returns, the callback throws a [TypeError], and the texture
    is left not ready with no render loop. *)
Lemma C7_no_frames_error_fails :
  ~ failsWithOwnError (construct "a.gif" true) /\
  ~ failsWithOwnError (onFileLoaded [] Sample.constructed) /\
  returned (construct "a.gif" true) = true /\
  ready (after (onFileLoaded [] Sample.constructed)) = false /\
  existsb (fun c => match c with RunRenderLoop => true | _ => false end)
          (calls (after (onFileLoaded [] Sample.constructed))) = false.
Proof.
  repeat split; try (vm_compute; reflexivity);
    intros (message & o & H); vm_compute in H; discriminate.
Qed.

(** ** Placement *)

Lemma withResources_nth (canvas : Dims) (fs : list GifFrame) :
  forall (n k : nat) (f : GifFrame),
    nth_error fs k = Some f ->
    nth_error (withResources canvas n fs) k =
    Some (mkGifFrame (dims f) (patch f) (delay f) (Some (n + k)%nat)
                     (Some (Placement.worldMatrixOf canvas (dims f)))).
Proof.
  induction fs as [ | f0 rest IH ]; intros n k f Hk.
  - destruct k; discriminate.
  - destruct k as [ | k ]; cbn in *.
    + injection Hk as ->. now rewrite Nat.add_0_r.
    + rewrite (IH (S n) k f Hk). do 3 f_equal. lia.
Qed.

(** C3.  The matrix cached on the [k]-th frame when the file has loaded is
    the placement transform of the spec, with the dimensions of frame 0 as
    the canvas: [sx = width / canvasWidth], [sy = height / canvasHeight],
    [tx = left / canvasWidth] and
    [ty = (canvasHeight - (top + height)) / canvasHeight].  For a patch at
    offset 0 that is as wide and as high as a canvas of non-zero size, this
    matrix is the identity. *)
Theorem C3_placement_transform :
  forall (url : string) (cb : bool) (f0 : GifFrame) (rest : list GifFrame)
         (k : nat) (f : GifFrame) (canvas d : Dims),
    nth_error (f0 :: rest) k = Some f ->
    width canvas <> 0%Z ->
    height canvas <> 0%Z ->
    width d = width canvas ->
    height d = height canvas ->
    left d = 0%Z ->
    top d = 0%Z ->
    let o := after (onFileLoaded (f0 :: rest) (after (construct url cb))) in
    let canvasWidth := inject_Z (width (dims f0)) in
    let canvasHeight := inject_Z (height (dims f0)) in
    (exists (fs : list GifFrame) (f' : GifFrame),
        _frames o = Some fs /\
        nth_error fs k = Some f' /\
        dims f' = dims f /\
        worldMatrix f' =
        Some (Placement.placement_of_spec
                (inject_Z (width (dims f)) / canvasWidth)
                (inject_Z (height (dims f)) / canvasHeight)
                (inject_Z (left (dims f)) / canvasWidth)
                ((canvasHeight - (inject_Z (top (dims f)) + inject_Z (height (dims f))))
                   / canvasHeight))%Q) /\
    Placement.mat_eq (Placement.worldMatrixOf canvas d) Placement.identity.
Proof.
  intros url cb f0 rest k f canvas d Hk Hw Hh Hdw Hdh Hl Ht o cw ch.
  split.
  - destruct (onFileLoaded_runs url cb f0 rest) as (o1 & Hrun & Hfs & _).
    assert (Ho : o = o1) by (subst o; now rewrite Hrun).
    rewrite Ho. eexists. eexists.
    split; [ exact Hfs | ].
    split; [ apply withResources_nth; exact Hk | ].
    split; reflexivity.
  - unfold Placement.mat_eq, Placement.worldMatrixOf, Placement.identity. cbn.
    rewrite Hdw, Hdh, Hl, Ht.
    assert (Hw' : ~ inject_Z (width canvas) == 0)
      by (unfold Qeq; cbn; lia).
    assert (Hh' : ~ inject_Z (height canvas) == 0)
      by (unfold Qeq; cbn; lia).
    repeat split; try reflexivity; field; assumption.
Qed.

Lemma C3_placement_transform_witness :
  Placement.mat_eq
    (Placement.worldMatrixOf (mkDims 4 4 0 0) (mkDims 4 4 0 0))
    Placement.identity.
Proof.
  apply (C3_placement_transform "a.gif" true Sample.frameA
           [Sample.frameB; Sample.frameC] 1 Sample.frameB
           (mkDims 4 4 0 0) (mkDims 4 4 0 0)).
  - reflexivity.
  - cbn. lia.
  - cbn. lia.
  - reflexivity.
  - reflexivity.
  - reflexivity.
  - reflexivity.
Defined.

(** ** The draw *)

Section Draw.

Import Shader Compositor.
Local Open Scope Q_scope.

Lemma inject_Z_pos (z : Z) : (0 < z)%Z -> 0 < inject_Z z.
Proof. intro H. unfold Qlt. cbn. lia. Qed.

Lemma inject_Z_nonneg (z : Z) : (0 <= z)%Z -> 0 <= inject_Z z.
Proof. intro H. unfold Qle. cbn. lia. Qed.

(** Clearing the common positive denominator of two bounds. *)
Lemma scaled_le (p q w : Q) : 0 < w -> p * / w <= q * / w -> p <= q.
Proof.
  intros Hw H.
  apply (Qmult_le_r _ _ (/ w)); [ apply Qinv_lt_0_compat; exact Hw | exact H ].
Qed.


Lemma clear_lower (p q w : Q) : 0 < w -> (p * / w) * 2 <= q * / w -> p * 2 <= q.
Proof.
  intros Hw H. apply (scaled_le _ _ w Hw).
  assert (E : p * 2 * / w == p * / w * 2) by ring.
  rewrite E. exact H.
Qed.

Lemma clear_upper (p1 p2 q w : Q) :
  0 < w -> q * / w <= (p1 * / w + p2 * / w) * 2 -> q <= (p1 + p2) * 2.
Proof.
  intros Hw H. apply (scaled_le _ _ w Hw).
  assert (E : (p1 + p2) * 2 * / w == (p1 * / w + p2 * / w) * 2) by ring.
  rewrite E. exact H.
Qed.

Lemma covered_in_patch (canvas d : Dims) (s : Surface) (i j : Z) :
  s_width s = width canvas ->
  s_height s = height canvas ->
  (0 < width canvas)%Z ->
  (0 < height canvas)%Z ->
  (0 <= width d)%Z ->
  (0 <= height d)%Z ->
  covered (map (vertexShader (Placement.worldMatrixOf canvas d)) positions)
          (centre s i j) = true ->
  in_patch (height canvas) d i j = true.
Proof.
  intros Hsw Hsh HW HH Hw Hh Hcov.
  unfold covered, centre in Hcov. rewrite Hsw, Hsh in Hcov.
  cbn [map positions existsb vertexShader gl_Position row_times Placement.worldMatrixOf
       x2 y2 x3 y3 z3 r g m0 m1 m2 m3 m4 m5 m6 m7 m8] in Hcov.
  rewrite !andb_true_iff, !orb_true_iff, !Qle_bool_iff in Hcov.
  pose proof (inject_Z_pos _ HW) as HWq.
  pose proof (inject_Z_pos _ HH) as HHq.
  pose proof (inject_Z_nonneg _ Hw) as Hwq.
  pose proof (inject_Z_nonneg _ Hh) as Hhq.
  pose proof (Qinv_lt_0_compat _ HWq) as HWi.
  pose proof (Qinv_lt_0_compat _ HHq) as HHi.
  assert (Hsx : 0 <= inject_Z (width d) * / inject_Z (width canvas))
    by (apply Qmult_le_0_compat; [ exact Hwq | apply Qlt_le_weak; exact HWi ]).
  assert (Hsy : 0 <= inject_Z (height d) * / inject_Z (height canvas))
    by (apply Qmult_le_0_compat; [ exact Hhq | apply Qlt_le_weak; exact HHi ]).
  unfold Qdiv in Hcov.
  destruct Hcov as [[[Hx1 Hx2] Hy1] Hy2].
  assert (Z1 : (left d * 2 <= 2 * i + 1)%Z).
  { rewrite Zle_Qle, inject_Z_mult.
    apply (clear_lower _ _ _ HWq).
    revert Hx1 Hsx. generalize (inject_Z (width d) * / inject_Z (width canvas)).
    generalize (inject_Z (left d) * / inject_Z (width canvas)).
    generalize (inject_Z (2 * i + 1) * / inject_Z (width canvas)).
    intros; lra. }
  assert (Z2 : (2 * i + 1 <= (width d + left d) * 2)%Z).
  { rewrite Zle_Qle, inject_Z_mult, (inject_Z_plus (width d) (left d)).
    apply (clear_upper _ _ _ _ HWq).
    revert Hx2 Hsx. generalize (inject_Z (width d) * / inject_Z (width canvas)).
    generalize (inject_Z (left d) * / inject_Z (width canvas)).
    generalize (inject_Z (2 * i + 1) * / inject_Z (width canvas)).
    intros; lra. }
  assert (Z3 : ((height canvas - (top d + height d)) * 2 <= 2 * j + 1)%Z).
  { unfold Z.sub.
    rewrite Zle_Qle, inject_Z_mult, (inject_Z_plus (height canvas)), inject_Z_opp,
      (inject_Z_plus (top d)).
    apply (clear_lower _ _ _ HHq).
    unfold Qminus in Hy1.
    revert Hy1 Hsy. generalize (inject_Z (height d) * / inject_Z (height canvas)).
    generalize ((inject_Z (height canvas) + - (inject_Z (top d) + inject_Z (height d)))
                * / inject_Z (height canvas)).
    generalize (inject_Z (2 * j + 1) * / inject_Z (height canvas)).
    intros; lra. }
  assert (Z4 : (2 * j + 1 <= (height d + (height canvas - (top d + height d))) * 2)%Z).
  { unfold Z.sub.
    rewrite Zle_Qle, inject_Z_mult, (inject_Z_plus (height d)),
      (inject_Z_plus (height canvas)), inject_Z_opp, (inject_Z_plus (top d)).
    apply (clear_upper _ _ _ _ HHq).
    unfold Qminus in Hy2.
    revert Hy2 Hsy. generalize (inject_Z (height d) * / inject_Z (height canvas)).
    generalize ((inject_Z (height canvas) + - (inject_Z (top d) + inject_Z (height d)))
                * / inject_Z (height canvas)).
    generalize (inject_Z (2 * j + 1) * / inject_Z (height canvas)).
    intros; lra. }
  unfold in_patch.
  rewrite !andb_true_iff, !Z.leb_le, !Z.ltb_lt. lia.
Qed.

Lemma discards (textureSampler : sampler2D) (color : vec4) (uv : vec2) :
  a color == 1 ->
  a (texture2D textureSampler uv) == 0 ->
  fragmentShader textureSampler color uv = Discard.
Proof.
  intros Hc Ht. unfold fragmentShader.
  assert (H1 : Qeq_bool (a color) 1 = true) by (apply Qeq_bool_iff; exact Hc).
  assert (H0 : Qeq_bool (a (mul4 (texture2D textureSampler uv) color)) 0 = true).
  { apply Qeq_bool_iff. cbn [mul4 a]. rewrite Ht. ring. }
  rewrite H1, H0. reflexivity.
Qed.

(** A tick that draws adds exactly one draw to the render target: that of
    the frame at the next index. *)
Lemma renderFrame_composites (o : AnimatedGifTexture) (fs : list GifFrame)
      (t : Tick) (textures : InternalTexture -> sampler2D) (color : vec4)
      (blend : vec4 -> vec4 -> vec4) (s : Surface) :
  Playing o fs ->
  holds o t = false ->
  effect_ready t = true ->
  exists f : GifFrame,
    nth_error fs (_nextFrameIndex o) = Some f /\
    composite textures color blend s (after (_renderFrame t o)) =
    renderPatch textures color blend (composite textures color blend s o) f.
Proof.
  intros HP Hh Hr.
  destruct (renderFrame_advance o fs t HP Hh)
    as (f & o' & Hnth & Hrun & _ & _ & _ & _ & _ & _ & _ & _ & Hcalls).
  exists f. split; [ exact Hnth | ].
  rewrite Hrun. cbn [after]. unfold composite, drawn.
  rewrite Hcalls, flat_map_app, fold_left_app.
  unfold drawCalls. rewrite Hr. cbn.
  destruct (negb (ready o) && _onLoad o); reflexivity.
Qed.

(** C5.  One draw of a frame whose matrix is the one [_createGifResources]
    caches, onto a target of the size of the canvas: a pixel outside the
    rectangle the frame's [dims] name keeps the very value it had; and where
    the colour uniform has alpha 1 and the texel sampled for a pixel has
    alpha 0, the fragment is discarded and that pixel keeps its value
    too. *)
Theorem C5_draw_preserves :
  forall (canvas : Dims) (frame : GifFrame) (id : InternalTexture)
         (textures : InternalTexture -> sampler2D) (color : vec4)
         (blend : vec4 -> vec4 -> vec4) (s : Surface) (i j i' j' : Z),
    worldMatrix frame = Some (Placement.worldMatrixOf canvas (dims frame)) ->
    texture frame = Some id ->
    s_width s = width canvas ->
    s_height s = height canvas ->
    (0 < width canvas)%Z ->
    (0 < height canvas)%Z ->
    (0 <= width (dims frame))%Z ->
    (0 <= height (dims frame))%Z ->
    in_patch (height canvas) (dims frame) i j = false ->
    a color == 1 ->
    a (texture2D (textures id)
         (interpolate (Placement.worldMatrixOf canvas (dims frame))
                      (centre s i' j'))) == 0 ->
    let s' := renderPatch textures color blend s frame in
    pixel s' i j = pixel s i j /\
    fragmentShader (textures id) color
      (interpolate (Placement.worldMatrixOf canvas (dims frame)) (centre s i' j'))
    = Discard /\
    pixel s' i' j' = pixel s i' j'.
Proof.
  intros canvas frame id textures color blend s i j i' j'
         Hworld Htex Hsw Hsh HW HH Hw Hh Hout Hc Ht s'.
  subst s'. unfold renderPatch. rewrite Hworld, Htex.
  pose proof (discards (textures id) color _ Hc Ht) as Hd.
  unfold draw. cbn [pixel].
  repeat split.
  - destruct (in_surface s i j); cbn [andb]; [ | reflexivity ].
    destruct (covered _ (centre s i j)) eqn:Hcov; [ | reflexivity ].
    apply (covered_in_patch canvas (dims frame) s i j Hsw Hsh HW HH Hw Hh) in Hcov.
    congruence.
  - exact Hd.
  - rewrite Hd. destruct (in_surface s i' j' && covered _ _); reflexivity.
Qed.

Lemma C5_draw_preserves_witness :
  let s := mkSurface 4 4 (fun _ _ => mkVec4 0 0 0 1) in
  let hole := fun (_ : InternalTexture) (_ : vec2) => mkVec4 1 1 1 0 in
  let frame := mkGifFrame (mkDims 2 2 1 1) [] 50 (Some 2%nat)
                 (Some (Placement.worldMatrixOf (mkDims 4 4 0 0) (mkDims 2 2 1 1))) in
  let s' := renderPatch hole (mkVec4 1 1 1 1) (fun c _ => c) s frame in
  pixel s' 0 0 = pixel s 0 0 /\ pixel s' 1 1 = pixel s 1 1.
Proof.
  cbv zeta.
  destruct (C5_draw_preserves
              (mkDims 4 4 0 0)
              (mkGifFrame (mkDims 2 2 1 1) [] 50 (Some 2%nat)
                 (Some (Placement.worldMatrixOf (mkDims 4 4 0 0) (mkDims 2 2 1 1))))
              2%nat
              (fun (_ : InternalTexture) (_ : vec2) => mkVec4 1 1 1 0)
              (mkVec4 1 1 1 1) (fun c _ => c)
              (mkSurface 4 4 (fun _ _ => mkVec4 0 0 0 1)) 0 0 1 1)
    as (Hout & _ & Hin); try reflexivity; try (cbn; lia).
  split; [ exact Hout | exact Hin ].
Defined.

(** The draw is not idle: with an opaque texel the same frame does change
    a pixel inside its rectangle and leaves one outside alone. *)
Example draw_writes_inside :
  let s := mkSurface 4 4 (fun _ _ => mkVec4 0 0 0 1) in
  let opaque := fun (_ : InternalTexture) (_ : vec2) => mkVec4 1 1 1 1 in
  let frame := mkGifFrame (mkDims 2 2 1 1) [] 50 (Some 2%nat)
                 (Some (Placement.worldMatrixOf (mkDims 4 4 0 0) (mkDims 2 2 1 1))) in
  let s' := renderPatch opaque (mkVec4 1 1 1 1) (fun c _ => c) s frame in
  pixel s' 1 1 = mkVec4 1 1 1 1 /\ pixel s' 2 2 = mkVec4 1 1 1 1 /\
  pixel s' 0 0 = mkVec4 0 0 0 1 /\ pixel s' 3 1 = mkVec4 0 0 0 1.
Proof.
  vm_compute. repeat split; reflexivity.
Qed.

End Draw.

(* ================================================================== *)
(** * Further properties of the code *)

(** ** What a tick leaves alone *)

(** Whatever the object, a tick changes neither the frames, nor the render
    target, nor the count of allocated textures, nor the size of the
    internal texture. *)
Lemma renderFrame_keeps (o : AnimatedGifTexture) (t : Tick) :
  let o' := after (_renderFrame t o) in
  _frames o' = _frames o /\
  _renderTarget o' = _renderTarget o /\
  allocated o' = allocated o /\
  _onLoad o' = _onLoad o /\
  option_map tex_width (_texture o') = option_map tex_width (_texture o) /\
  option_map tex_height (_texture o') = option_map tex_height (_texture o).
Proof.
  cbv zeta. unfold _renderFrame, bind, get.
  destruct (holds o t); [ cbn; auto 6 | ].
  destruct (_frames o) as [ fs | ] eqn:Hfs; [ | cbn; auto 6 ].
  unfold _drawPatch. destruct (effect_ready t); cbn; [ | auto 6 ].
  destruct (nth_error fs (_nextFrameIndex o)); cbn; [ | auto 6 ].
  destruct (_texture o) as [ tx | ] eqn:Htx; cbn; [ | rewrite Htx; auto 6 ].
  destruct (isReady tx); cbn; [ rewrite Htx; auto 6 | ].
  unfold on_texture, bind, get; cbn. rewrite Htx. cbn.
  destruct (_onLoad o) eqn:Hcb; cbn; rewrite ?Hcb; auto 6.
Qed.

Lemma runTicks_keeps (ts : list Tick) :
  forall (o : AnimatedGifTexture) (fs : list GifFrame),
    Playing o fs ->
    let o' := after (runTicks ts o) in
    _renderTarget o' = _renderTarget o /\
    allocated o' = allocated o /\
    _onLoad o' = _onLoad o /\
    option_map tex_width (_texture o') = option_map tex_width (_texture o) /\
    option_map tex_height (_texture o') = option_map tex_height (_texture o).
Proof.
  induction ts as [ | t ts IH ]; intros o fs HP; cbv zeta.
  - cbn. auto.
  - destruct (renderFrame_playing o fs t HP) as [Hret HP'].
    rewrite (runTicks_cons _ _ _ Hret).
    destruct (IH _ fs HP') as (H1 & H2 & H3 & H4 & H5).
    destruct (renderFrame_keeps o t) as (_ & K1 & K2 & K3 & K4 & K5).
    repeat split; congruence.
Qed.

(** The calls of one tick on an object in play: only tick calls, at most
    one draw, and a drawn frame is one of the frames. *)
Lemma renderFrame_calls (o : AnimatedGifTexture) (fs : list GifFrame) (t : Tick) :
  Playing o fs ->
  exists l : list Call,
    calls (after (_renderFrame t o)) = calls o ++ l /\
    forallb is_tickCall l = true /\
    (List.length (filter is_Render l) <= 1)%nat /\
    Forall (fun c => match c with Render f => In f fs | _ => True end) l.
Proof.
  intro HP. destruct (holds o t) eqn:Hh.
  - exists []. rewrite (renderFrame_held _ _ Hh). cbn.
    rewrite app_nil_r. repeat split; auto.
  - destruct (renderFrame_advance o fs t HP Hh)
      as (f & o' & Hnth & Hrun & _ & _ & _ & _ & _ & _ & _ & _ & Hcalls).
    exists (drawCalls o t f). rewrite Hrun. cbn [after].
    split; [ exact Hcalls | ].
    apply nth_error_In in Hnth.
    unfold drawCalls.
    destruct (effect_ready t); [ | cbn; repeat split; auto ].
    destruct (negb (ready o) && _onLoad o); cbn; repeat split; auto.
Qed.

Lemma runTicks_calls (ts : list Tick) :
  forall (o : AnimatedGifTexture) (fs : list GifFrame),
    Playing o fs ->
    exists l : list Call,
      calls (after (runTicks ts o)) = calls o ++ l /\
      forallb is_tickCall l = true /\
      (List.length (filter is_Render l) <= List.length ts)%nat /\
      Forall (fun c => match c with Render f => In f fs | _ => True end) l.
Proof.
  induction ts as [ | t ts IH ]; intros o fs HP.
  - exists []. cbn. rewrite app_nil_r. repeat split; auto.
  - destruct (renderFrame_playing o fs t HP) as [Hret HP'].
    rewrite (runTicks_cons _ _ _ Hret).
    destruct (renderFrame_calls o fs t HP) as (l1 & Hc1 & Ht1 & Hn1 & Hin1).
    destruct (IH _ fs HP') as (l2 & Hc2 & Ht2 & Hn2 & Hin2).
    exists (l1 ++ l2). rewrite Hc2, Hc1, <- app_assoc.
    split; [ reflexivity | ].
    rewrite forallb_app, Ht1, Ht2, filter_app, length_app.
    repeat split; [ cbn; lia | apply Forall_app; auto ].
Qed.

(** The state the load of a non-empty sequence leaves, in full. *)
Lemma onFileLoaded_state (url : string) (cb : bool) (f0 : GifFrame)
      (rest : list GifFrame) :
  let o := after (onFileLoaded (f0 :: rest) (after (construct url cb))) in
  Playing o (withResources (dims f0) 1 (f0 :: rest)) /\
  Settled o /\
  _currentFrame o = None /\
  _nextFrameIndex o = 0%nat /\
  _previousDate o = None /\
  _onLoad o = cb /\
  _renderTarget o = Some (dims f0) /\
  _texture o = Some (mkTexture (width (dims f0)) (height (dims f0)) false) /\
  allocated o = S (S (List.length rest)) /\
  drawn o = [] /\
  calls o =
    [CreateRawTexture 0%nat 1 1; NewEffectWrapper; NewEffectRenderer; LoadFile url]
      ++ resourceCalls 1 (f0 :: rest)
      ++ [CreateRenderTargetTexture (dims f0); ReleaseTexture; SwapAndDie;
          UpdateTextureWrappingMode; RunRenderLoop].
Proof.
  cbv zeta.
  destruct (onFileLoaded_runs url cb f0 rest)
    as (o & Hrun & Hfs & Hcur & Hidx & Hdate & Hcb & Hrt & Hready & Htex
        & Hruns & Hdrawn).
  assert (Hstate :
            _texture o = Some (mkTexture (width (dims f0)) (height (dims f0)) false) /\
            allocated o = S (S (List.length rest)) /\
            calls o =
              [CreateRawTexture 0%nat 1 1; NewEffectWrapper; NewEffectRenderer;
               LoadFile url]
                ++ resourceCalls 1 (f0 :: rest)
                ++ [CreateRenderTargetTexture (dims f0); ReleaseTexture; SwapAndDie;
                    UpdateTextureWrappingMode; RunRenderLoop]).
  { revert Hrun.
    unfold onFileLoaded, _parseGifData, _createGifResources.
    unfold bind at 1. cbn [modify construct after].
    unfold bind at 1. unfold bind at 1. cbn [get set_frames _frames].
    unfold bind at 1.
    rewrite createFramesResources_runs.
    cbv -[withResources resourceCalls Placement.worldMatrixOf app filter flat_map
          List.length].
    intro Hrun. injection Hrun as <-.
    cbv -[withResources resourceCalls Placement.worldMatrixOf app filter flat_map
          List.length Nat.add].
    split; [ reflexivity | ].
    split; [ reflexivity | ].
    cbn [app resourceCalls]. rewrite <- !app_assoc. reflexivity. }
  rewrite Hrun. cbn [after].
  destruct Hstate as (Htx & Halloc & Hcalls).
  assert (Hnone : existsb is_Render (calls o) = false).
  { apply not_true_is_false. intro Hex.
    apply existsb_exists in Hex. destruct Hex as (c & Hin & Hc).
    destruct c; try discriminate.
    assert (Hd : In f (drawn o)).
    { unfold drawn. apply in_flat_map. exists (Render f). cbn. auto. }
    rewrite Hdrawn in Hd. exact Hd. }
  repeat split; try assumption.
  - rewrite Hidx. cbn. lia.
  - rewrite Hready, Hnone. reflexivity.
  - rewrite Hready, Hruns. reflexivity.
Qed.

Lemma issued_app (o o' : AnimatedGifTexture) (l : list Call) :
  calls o' = calls o ++ l -> issued o o' = l.
Proof.
  intro H. unfold issued. rewrite H, skipn_app, skipn_all, Nat.sub_diag.
  reflexivity.
Qed.

Lemma drawn_length (o : AnimatedGifTexture) :
  List.length (drawn o) = List.length (filter is_Render (calls o)).
Proof.
  unfold drawn. induction (calls o) as [ | c l IH ]; [ reflexivity | ].
  destruct c; cbn; auto.
Qed.

Lemma withResources_length (canvas : Dims) (fs : list GifFrame) :
  forall n : nat, List.length (withResources canvas n fs) = List.length fs.
Proof.
  induction fs as [ | f rest IH ]; intro n; cbn [withResources List.length];
    [ reflexivity | f_equal; apply IH ].
Qed.

Lemma played_nil (url : string) (cb : bool) (f0 : GifFrame) (rest : list GifFrame) :
  played url cb f0 rest [] =
  after (onFileLoaded (f0 :: rest) (after (construct url cb))).
Proof. reflexivity. Qed.

(** ** The scheduler over whole runs *)

(** X1.  Once the file has loaded, no run of ticks throws, the stored
    frames stay as the load left them, and the next index always points at
    one of them. *)
Theorem ticks_stay_in_range :
  forall (url : string) (cb : bool) (f0 : GifFrame) (rest : list GifFrame)
         (ts : list Tick),
    let o := played url cb f0 rest ts in
    returned (runTicks ts (played url cb f0 rest [])) = true /\
    _frames o = _frames (played url cb f0 rest []) /\
    (exists f : GifFrame,
        option_map (fun fs => nth_error fs (_nextFrameIndex o)) (_frames o)
        = Some (Some f)) /\
    (_nextFrameIndex o < S (List.length rest))%nat.
Proof.
  intros url cb f0 rest ts o.
  destruct (onFileLoaded_state url cb f0 rest) as (HP & _).
  rewrite played_nil.
  destruct (runTicks_playing ts _ _ HP) as [Hret HP'].
  fold (played url cb f0 rest ts) in HP'. fold o in HP'.
  destruct HP as (Hfs0 & _). destruct HP' as (Hfs & Hidx & _).
  assert (Hlen : List.length (withResources (dims f0) 1 (f0 :: rest))
                 = S (List.length rest))
    by apply withResources_length.
  repeat split.
  - exact Hret.
  - congruence.
  - rewrite Hfs. cbn [option_map].
    destruct (nth_error (withResources (dims f0) 1 (f0 :: rest)) (_nextFrameIndex o))
      as [ f | ] eqn:Hnth.
    + exists f. reflexivity.
    + apply nth_error_None in Hnth. lia.
  - rewrite <- Hlen. exact Hidx.
Qed.

(** X2.  Ticks neither create nor release anything: over any run after the
    load the count of allocated textures, the render target and the size of
    the internal texture (that of frame 0) stay what the load made them, and
    the only calls issued are draws, viewport resets and the callback. *)
Theorem ticks_touch_no_resource :
  forall (url : string) (cb : bool) (f0 : GifFrame) (rest : list GifFrame)
         (ts : list Tick),
    let o0 := played url cb f0 rest [] in
    let o := played url cb f0 rest ts in
    allocated o = allocated o0 /\
    _renderTarget o = Some (dims f0) /\
    option_map tex_width (_texture o) = Some (width (dims f0)) /\
    option_map tex_height (_texture o) = Some (height (dims f0)) /\
    forallb is_tickCall (issued o0 o) = true /\
    createdTextures (issued o0 o) = [] /\
    disposedTextures (issued o0 o) = [].
Proof.
  intros url cb f0 rest ts o0 o.
  destruct (onFileLoaded_state url cb f0 rest)
    as (HP & _ & _ & _ & _ & _ & Hrt & Htx & _).
  change (after (onFileLoaded (f0 :: rest) (after (construct url cb))))
    with o0 in HP, Hrt, Htx.
  destruct (runTicks_keeps ts o0 _ HP) as (K1 & K2 & _ & K4 & K5).
  destruct (runTicks_calls ts o0 _ HP) as (l & Hcalls & Htick & _).
  change (after (runTicks ts o0)) with o in K1, K2, K4, K5, Hcalls.
  rewrite (issued_app o0 o l Hcalls).
  rewrite K1, K2, K4, K5, Hrt, Htx.
  repeat split; try assumption.
  - clear - Htick. induction l as [ | c l IH ]; [ reflexivity | ].
    cbn in Htick. apply andb_true_iff in Htick. destruct Htick as [Hc Hl].
    destruct c; try discriminate; cbn; auto.
  - clear - Htick. induction l as [ | c l IH ]; [ reflexivity | ].
    cbn in Htick. apply andb_true_iff in Htick. destruct Htick as [Hc Hl].
    destruct c; try discriminate; cbn; auto.
Qed.

(** X3.  A run of [n] ticks draws at most [n] patches: no tick draws more
    than one frame, whatever the delays of the frames and the readings of
    the clock. *)
Theorem one_draw_per_tick_at_most :
  forall (url : string) (cb : bool) (f0 : GifFrame) (rest : list GifFrame)
         (ts : list Tick) (t : Tick),
    let o := played url cb f0 rest ts in
    (List.length (drawn o) <= List.length ts)%nat /\
    (List.length (drawn (after (_renderFrame t o))) <= S (List.length (drawn o)))%nat.
Proof.
  intros url cb f0 rest ts t o.
  destruct (onFileLoaded_state url cb f0 rest)
    as (HP & _ & _ & _ & _ & _ & _ & _ & _ & Hdrawn & _).
  destruct (runTicks_calls ts _ _ HP) as (l & Hcalls & _ & Hn & _).
  destruct (runTicks_playing ts _ _ HP) as [_ HP'].
  fold (played url cb f0 rest ts) in Hcalls, HP'. fold o in Hcalls, HP'.
  destruct (renderFrame_calls o _ t HP') as (l1 & Hc1 & _ & Hn1 & _).
  rewrite !drawn_length. rewrite Hc1, Hcalls, !filter_app, !length_app.
  rewrite <- drawn_length, Hdrawn. cbn. lia.
Qed.

(** X4.  When no callback is passed to the constructor the texture still
    becomes ready exactly when a draw has been issued, and the callback
    slot is never called. *)
Theorem no_callback_no_call :
  forall (url : string) (f0 : GifFrame) (rest : list GifFrame) (ts : list Tick),
    let o := played url false f0 rest ts in
    ready o = existsb is_Render (calls o) /\
    existsb is_OnLoad (calls o) = false.
Proof.
  intros url f0 rest ts o.
  destruct (onFileLoaded_state url false f0 rest)
    as (HP & HS & _ & _ & _ & Hcb & _).
  destruct (runTicks_settled ts _ _ HP HS) as [(Hready & Hruns) Hcb'].
  fold (played url false f0 rest ts) in Hready, Hruns, Hcb'.
  fold o in Hready, Hruns, Hcb'.
  split; [ exact Hready | ].
  rewrite Hcb', Hcb, andb_false_r in Hruns.
  unfold onLoad_runs in Hruns. revert Hruns.
  generalize (calls o). intro l.
  induction l as [ | c l IH ]; [ reflexivity | ].
  cbn. destruct (is_OnLoad c); [ discriminate | exact IH ].
Qed.

Lemma bump_back (len k : nat) :
  (k < len)%nat -> ((bump len k + len - 1) mod len = k)%nat.
Proof.
  intro Hk. unfold bump.
  destruct (Nat.leb_spec len (S k)) as [Hle | Hgt].
  - replace (0 + len - 1)%nat with k by lia. apply Nat.mod_small. exact Hk.
  - replace (S k + len - 1)%nat with (k + 1 * len)%nat by lia.
    rewrite Nat.Div0.mod_add. apply Nat.mod_small. exact Hk.
Qed.

Lemma renderFrame_showing (o : AnimatedGifTexture) (fs : list GifFrame) (t : Tick) :
  Playing o fs ->
  Showing o fs \/ _currentFrame o = None ->
  Showing (after (_renderFrame t o)) fs.
Proof.
  intros HP Hcur. destruct (holds o t) eqn:Hh.
  - rewrite (renderFrame_held _ _ Hh). cbn [after].
    destruct Hcur as [Hs | Hnone]; [ exact Hs | ].
    unfold holds in Hh. rewrite Hnone in Hh. discriminate.
  - destruct (renderFrame_advance o fs t HP Hh)
      as (f & o' & Hnth & Hrun & _ & Hcur' & Hidx & Hdate & _).
    rewrite Hrun. cbn [after].
    exists f, (now_drawn t). repeat split; [ exact Hcur' | | exact Hdate ].
    rewrite Hidx, bump_back; [ exact Hnth | ].
    destruct HP as (_ & Hlt & _). exact Hlt.
Qed.

Lemma runTicks_showing (ts : list Tick) :
  forall (o : AnimatedGifTexture) (fs : list GifFrame),
    Playing o fs ->
    Showing o fs ->
    Showing (after (runTicks ts o)) fs.
Proof.
  induction ts as [ | t ts IH ]; intros o fs HP HS.
  - exact HS.
  - destruct (renderFrame_playing o fs t HP) as [Hret HP'].
    rewrite (runTicks_cons _ _ _ Hret).
    apply (IH _ fs HP'). apply renderFrame_showing; auto.
Qed.

(** X5.  After at least one tick a frame is always current: it is the
    stored frame just before the next index (cyclically), and the time of
    its draw is recorded, so the delay test never meets an undefined
    timestamp. *)
Theorem current_frame_precedes_next_index :
  forall (url : string) (cb : bool) (f0 : GifFrame) (rest : list GifFrame)
         (t : Tick) (ts : list Tick),
    let o := played url cb f0 rest (t :: ts) in
    exists (fs : list GifFrame) (f : GifFrame) (d : Q),
      _frames o = Some fs /\
      _currentFrame o = Some f /\
      nth_error fs ((_nextFrameIndex o + List.length fs - 1) mod List.length fs)
      = Some f /\
      _previousDate o = Some d.
Proof.
  intros url cb f0 rest t ts o.
  destruct (onFileLoaded_state url cb f0 rest) as (HP & _ & Hcur & _).
  destruct (renderFrame_playing _ _ t HP) as [Hret HP1].
  pose proof (renderFrame_showing _ _ t HP (or_intror Hcur)) as HS1.
  pose proof (runTicks_showing ts _ _ HP1 HS1) as HS.
  destruct (runTicks_playing ts _ _ HP1) as [_ (Hfs & _)].
  assert (Ho : o = after (runTicks ts
                 (after (_renderFrame t
                    (after (onFileLoaded (f0 :: rest) (after (construct url cb)))))))).
  { subst o. unfold played. now rewrite (runTicks_cons _ _ _ Hret). }
  rewrite <- Ho in HS, Hfs.
  destruct HS as (f & d & H1 & H2 & H3).
  exists (withResources (dims f0) 1 (f0 :: rest)), f, d. auto.
Qed.

Lemma renderFrame_drawn (o : AnimatedGifTexture) (fs : list GifFrame) (t : Tick) :
  Playing o fs ->
  holds o t = false ->
  exists f : GifFrame,
    nth_error fs (_nextFrameIndex o) = Some f /\
    drawn (after (_renderFrame t o)) =
    drawn o ++ (if effect_ready t then [f] else []).
Proof.
  intros HP Hh.
  destruct (renderFrame_advance o fs t HP Hh)
    as (f & o' & Hnth & Hrun & _ & _ & _ & _ & _ & _ & _ & _ & Hcalls).
  exists f. split; [ exact Hnth | ].
  rewrite Hrun. cbn [after]. unfold drawn.
  rewrite Hcalls, flat_map_app. f_equal.
  unfold drawCalls. destruct (effect_ready t); [ | reflexivity ].
  destruct (negb (ready o) && _onLoad o); reflexivity.
Qed.

Lemma looped_succ (fs : list GifFrame) (m : nat) :
  looped fs (S m) = looped fs m ++ [nth_error fs (m mod List.length fs)].
Proof.
  unfold looped. rewrite seq_S, map_app. reflexivity.
Qed.

Lemma renderFrame_inOrder (o : AnimatedGifTexture) (fs : list GifFrame) (t : Tick) :
  Playing o fs ->
  InOrder o fs ->
  effect_ready t = true ->
  InOrder (after (_renderFrame t o)) fs.
Proof.
  intros HP (Hd & Hidx) Hr. destruct (holds o t) eqn:Hh.
  - rewrite (renderFrame_held _ _ Hh). split; assumption.
  - destruct (renderFrame_drawn o fs t HP Hh) as (f & Hnth & Hdrawn).
    destruct (renderFrame_advance o fs t HP Hh)
      as (f' & o' & _ & Hrun & _ & _ & Hidx' & _).
    rewrite Hrun in *. cbn [after] in *. rewrite Hr in Hdrawn.
    assert (Hlen : (0 < List.length fs)%nat)
      by (destruct HP as (_ & Hlt & _); lia).
    split.
    + rewrite Hdrawn, map_app, length_app. cbn [List.length map].
      rewrite Nat.add_1_r, looped_succ, Hd, <- Hidx, Hnth. reflexivity.
    + rewrite Hidx', Hdrawn, length_app. cbn [List.length].
      rewrite bump_mod by (destruct HP as (_ & Hlt & _); exact Hlt).
      rewrite Hidx, Nat.Div0.add_mod_idemp_l. reflexivity.
Qed.

Lemma runTicks_inOrder (ts : list Tick) :
  forall (o : AnimatedGifTexture) (fs : list GifFrame),
    Playing o fs ->
    InOrder o fs ->
    forallb effect_ready ts = true ->
    InOrder (after (runTicks ts o)) fs.
Proof.
  induction ts as [ | t ts IH ]; intros o fs HP HI Hall.
  - exact HI.
  - cbn in Hall. apply andb_true_iff in Hall. destruct Hall as [Hr Hall].
    destruct (renderFrame_playing o fs t HP) as [Hret HP'].
    rewrite (runTicks_cons _ _ _ Hret).
    apply (IH _ fs HP'); [ | exact Hall ].
    apply renderFrame_inOrder; assumption.
Qed.

(** X6.  When the patch effect is compiled at every tick, the patches are
    drawn in the order of the frames, starting at frame 0 and looping: the
    [k]-th draw is of the stored frame [k mod N], and the next index is the
    number of draws modulo [N]. *)
Theorem frames_drawn_in_loop_order :
  forall (url : string) (cb : bool) (f0 : GifFrame) (rest : list GifFrame)
         (ts : list Tick),
    forallb effect_ready ts = true ->
    let o := played url cb f0 rest ts in
    exists fs : list GifFrame,
      _frames o = Some fs /\
      map Some (drawn o) = looped fs (List.length (drawn o)) /\
      _nextFrameIndex o = (List.length (drawn o) mod List.length fs)%nat.
Proof.
  intros url cb f0 rest ts Hall o.
  destruct (onFileLoaded_state url cb f0 rest)
    as (HP & _ & _ & Hidx & _ & _ & _ & _ & _ & Hdrawn & _).
  assert (HI : InOrder (after (onFileLoaded (f0 :: rest) (after (construct url cb))))
                       (withResources (dims f0) 1 (f0 :: rest))).
  { split; rewrite Hdrawn; [ reflexivity | ].
    rewrite Hidx. cbn [List.length]. symmetry. apply Nat.Div0.mod_0_l. }
  destruct (runTicks_playing ts _ _ HP) as [_ (Hfs & _)].
  destruct (runTicks_inOrder ts _ _ HP HI Hall) as [H1 H2].
  exists (withResources (dims f0) 1 (f0 :: rest)). auto.
Qed.

Lemma frames_drawn_in_loop_order_witness :
  map dims (drawn (played "a.gif" true Sample.frameA
                     [Sample.frameB; Sample.frameC]
                     [mkTick 0 0 true; mkTick 100 100 true; mkTick 120 120 true;
                      mkTick 150 150 true; mkTick 350 350 true]))
  = [mkDims 4 4 0 0; mkDims 2 2 1 1; mkDims 1 3 0 3; mkDims 4 4 0 0].
Proof.
  destruct (frames_drawn_in_loop_order "a.gif" true Sample.frameA
              [Sample.frameB; Sample.frameC]
              [mkTick 0 0 true; mkTick 100 100 true; mkTick 120 120 true;
               mkTick 150 150 true; mkTick 350 350 true] eq_refl)
    as (fs & _ & _ & _).
  vm_compute. reflexivity.
Defined.

Lemma withResources_delays (canvas : Dims) (fs : list GifFrame) :
  forall n : nat, map delay (withResources canvas n fs) = map delay fs.
Proof.
  induction fs as [ | f rest IH ]; intro n; cbn [withResources map delay];
    [ reflexivity | f_equal; apply IH ].
Qed.

Lemma Forall_delay_map (P : Q -> Prop) (fs : list GifFrame) :
  Forall (fun f => P (delay f)) fs <-> Forall P (map delay fs).
Proof.
  induction fs as [ | f rest IH ]; cbn.
  - split; constructor.
  - split; intro H; inversion H; subst; constructor; auto; apply IH; auto.
Qed.

Lemma zero_delay_advances (ts : list Tick) :
  forall (o : AnimatedGifTexture) (fs : list GifFrame),
    Playing o fs ->
    Forall (fun f => (delay f <= 0)%Q) fs ->
    OnTime o fs ts ->
    match ts with
    | [] => True
    | t :: rest => clockChain (now_drawn t) rest
    end ->
    allAdvance o ts = true.
Proof.
  induction ts as [ | t ts IH ]; intros o fs HP Hzero Hon Hchain.
  - reflexivity.
  - assert (Hh : holds o t = false).
    { unfold holds, OnTime in *.
      destruct (_currentFrame o) as [ cf | ]; [ | reflexivity ].
      destruct Hon as (Hin & p & Hp & Hle). rewrite Hp.
      unfold Num.elapsed_lt. apply ltb_ge.
      rewrite Forall_forall in Hzero. specialize (Hzero cf Hin).
      lra. }
    cbn [allAdvance]. rewrite Hh. cbn [negb andb].
    destruct (renderFrame_playing o fs t HP) as [_ HP'].
    destruct (renderFrame_advance o fs t HP Hh)
      as (f & o' & Hnth & Hrun & _ & Hcur & _ & Hdate & _).
    apply (IH _ fs HP' Hzero).
    + rewrite Hrun. cbn [after]. unfold OnTime. rewrite Hcur.
      split; [ eapply nth_error_In; exact Hnth | ].
      exists (now_drawn t). split; [ exact Hdate | ].
      destruct ts as [ | t2 ts ]; [ exact I | ].
      cbn in Hchain. tauto.
    + destruct ts as [ | t2 ts ]; [ exact I | ].
      cbn in Hchain. tauto.
Qed.

(** X7.  A sequence whose frames all have a delay of 0 (or less) advances
    one frame at every tick, provided the clock never runs backwards from
    the end of one tick to the test of the next: after [n] ticks the next
    index is [n mod N]. *)
Theorem zero_delay_one_frame_per_tick :
  forall (url : string) (cb : bool) (f0 : GifFrame) (rest : list GifFrame)
         (t : Tick) (ts : list Tick),
    Forall (fun f => (delay f <= 0)%Q) (f0 :: rest) ->
    clockChain (now_drawn t) ts ->
    allAdvance (played url cb f0 rest []) (t :: ts) = true /\
    _nextFrameIndex (played url cb f0 rest (t :: ts))
    = (S (List.length ts) mod S (List.length rest))%nat.
Proof.
  intros url cb f0 rest t ts Hzero Hchain.
  destruct (onFileLoaded_state url cb f0 rest)
    as (HP & _ & Hcur & Hidx & _).
  rewrite played_nil.
  assert (Hzero' : Forall (fun f => (delay f <= 0)%Q)
                          (withResources (dims f0) 1 (f0 :: rest))).
  { apply (Forall_delay_map (fun d => (d <= 0)%Q)).
    rewrite withResources_delays.
    apply (Forall_delay_map (fun d => (d <= 0)%Q)). exact Hzero. }
  assert (Hall : allAdvance
                   (after (onFileLoaded (f0 :: rest) (after (construct url cb))))
                   (t :: ts) = true).
  { apply (zero_delay_advances (t :: ts) _ _ HP Hzero').
    - unfold OnTime. rewrite Hcur. exact I.
    - exact Hchain. }
  split; [ exact Hall | ].
  unfold played. rewrite (allAdvance_index (t :: ts) _ _ HP Hall).
  rewrite Hidx, withResources_length, iter_bump by (cbn; lia).
  reflexivity.
Qed.

Lemma zero_delay_one_frame_per_tick_witness :
  _nextFrameIndex
    (played "a.gif" false
       (mkGifFrame (mkDims 2 2 0 0) [] 0 None None)
       [mkGifFrame (mkDims 1 1 0 0) [] 0 None None]
       [mkTick 0 0 true; mkTick 0 1 true; mkTick 1 1 true])
  = 1%nat.
Proof.
  apply (zero_delay_one_frame_per_tick "a.gif" false
           (mkGifFrame (mkDims 2 2 0 0) [] 0 None None)
           [mkGifFrame (mkDims 1 1 0 0) [] 0 None None]
           (mkTick 0 0 true) [mkTick 0 1 true; mkTick 1 1 true]).
  - repeat constructor; cbn; discriminate.
  - cbn. repeat split; discriminate.
Defined.

(** ** Resources over the lifecycle *)

Lemma withResources_maps (canvas : Dims) (fs : list GifFrame) :
  forall n : nat,
    map dims (withResources canvas n fs) = map dims fs /\
    map patch (withResources canvas n fs) = map patch fs /\
    map texture (withResources canvas n fs) = map Some (seq n (List.length fs)) /\
    map worldMatrix (withResources canvas n fs)
    = map (fun f => Some (Placement.worldMatrixOf canvas (dims f))) fs.
Proof.
  induction fs as [ | f rest IH ]; intro n.
  - cbn. auto.
  - destruct (IH (S n)) as (H1 & H2 & H3 & H4).
    cbn. rewrite H1, H2, H3, H4. auto.
Qed.

Lemma resourceCalls_created (fs : list GifFrame) :
  forall n : nat,
    createdTextures (resourceCalls n fs) = seq n (List.length fs) /\
    createdSizes (resourceCalls n fs)
    = map (fun f => (width (dims f), height (dims f))) fs /\
    disposedTextures (resourceCalls n fs) = [] /\
    existsb is_RunRenderLoop (resourceCalls n fs) = false.
Proof.
  induction fs as [ | f rest IH ]; intro n.
  - cbn. auto.
  - destruct (IH (S n)) as (H1 & H2 & H3 & H4).
    unfold createdTextures, createdSizes, disposedTextures in *.
    cbn [resourceCalls flat_map app existsb is_RunRenderLoop orb map seq
         List.length].
    rewrite H1, H2, H3, H4. auto.
Qed.

(** X8.  The load gives every frame a raw texture of its own: the frames
    keep their number, order, dimensions, pixels and delays; frame [k] gets
    handle [k + 1], the handles of all raw textures (placeholder first) are
    0, 1, ..., N without repeat, and each frame's texture is created with
    the width and height of its patch. *)
Theorem load_gives_each_frame_a_texture :
  forall (url : string) (cb : bool) (f0 : GifFrame) (rest : list GifFrame),
    let o := played url cb f0 rest [] in
    exists fs : list GifFrame,
      _frames o = Some fs /\
      map dims fs = map dims (f0 :: rest) /\
      map patch fs = map patch (f0 :: rest) /\
      map delay fs = map delay (f0 :: rest) /\
      map texture fs = map Some (seq 1 (S (List.length rest))) /\
      createdTextures (calls o) = seq 0 (S (S (List.length rest))) /\
      NoDup (createdTextures (calls o)) /\
      createdSizes (calls o)
      = (1, 1)%Z :: map (fun f => (width (dims f), height (dims f))) (f0 :: rest).
Proof.
  intros url cb f0 rest o.
  destruct (onFileLoaded_state url cb f0 rest)
    as ((Hfs & _) & _ & _ & _ & _ & _ & _ & _ & _ & _ & Hcalls).
  change (after (onFileLoaded (f0 :: rest) (after (construct url cb))))
    with o in Hfs, Hcalls.
  destruct (withResources_maps (dims f0) (f0 :: rest) 1) as (M1 & M2 & M3 & _).
  destruct (resourceCalls_created (f0 :: rest) 1) as (R1 & R2 & _).
  assert (Hcreated : createdTextures (calls o) = seq 0 (S (S (List.length rest)))).
  { rewrite Hcalls. unfold createdTextures in *.
    rewrite !flat_map_app, R1. cbn. rewrite app_nil_r. reflexivity. }
  exists (withResources (dims f0) 1 (f0 :: rest)).
  repeat split; try assumption.
  - apply withResources_delays.
  - rewrite Hcreated. apply seq_NoDup.
  - rewrite Hcalls. unfold createdSizes in *.
    rewrite !flat_map_app, R2. cbn. rewrite app_nil_r. reflexivity.
Qed.

(** X9.  When the load of a non-empty sequence ends, the render target and
    the internal texture have the width and height of frame 0's patch, the
    texture is not ready, and the render loop has been started once, as the
    very last call, after the render target was created. *)
Theorem load_sizes_target_then_starts_loop :
  forall (url : string) (cb : bool) (f0 : GifFrame) (rest : list GifFrame),
    let o := played url cb f0 rest [] in
    _renderTarget o = Some (dims f0) /\
    _texture o = Some (mkTexture (width (dims f0)) (height (dims f0)) false) /\
    exists before : list Call,
      calls o = before ++ [RunRenderLoop] /\
      existsb is_RunRenderLoop before = false /\
      In (CreateRenderTargetTexture (dims f0)) before.
Proof.
  intros url cb f0 rest o.
  destruct (onFileLoaded_state url cb f0 rest)
    as (_ & _ & _ & _ & _ & _ & Hrt & Htx & _ & _ & Hcalls).
  change (after (onFileLoaded (f0 :: rest) (after (construct url cb))))
    with o in Hrt, Htx, Hcalls.
  destruct (resourceCalls_created (f0 :: rest) 1) as (_ & _ & _ & R4).
  split; [ exact Hrt | ]. split; [ exact Htx | ].
  exists ([CreateRawTexture 0%nat 1 1; NewEffectWrapper; NewEffectRenderer;
           LoadFile url]
            ++ resourceCalls 1 (f0 :: rest)
            ++ [CreateRenderTargetTexture (dims f0); ReleaseTexture; SwapAndDie;
                UpdateTextureWrappingMode]).
  repeat split.
  - rewrite Hcalls, <- !app_assoc. reflexivity.
  - rewrite !existsb_app, R4. reflexivity.
  - apply in_or_app. right. apply in_or_app. right. cbn. auto.
Qed.

Lemma dispose_played (url : string) (cb : bool) (f0 : GifFrame)
      (rest : list GifFrame) (ts : list Tick) :
  let o := played url cb f0 rest ts in
  dispose o =
  Return tt
    (set_calls
       (calls o ++
        [StopRenderLoop; DisposeEffectWrapper; DisposeEffectRenderer]
          ++ map DisposeFrameTexture (seq 1 (S (List.length rest)))
          ++ [DisposeRenderTarget; SuperDispose]) o).
Proof.
  intro o.
  destruct (onFileLoaded_state url cb f0 rest)
    as (HP & _ & _ & _ & _ & _ & Hrt & _).
  destruct (runTicks_playing ts _ _ HP) as [_ (Hfs & _)].
  pose proof (runTicks_renderTarget ts _ _ HP) as Hrt'.
  change (after (runTicks ts
            (after (onFileLoaded (f0 :: rest) (after (construct url cb))))))
    with o in Hfs, Hrt'.
  rewrite Hrt in Hrt'.
  destruct (withResources_textures (dims f0) (f0 :: rest) 1) as [Hall Hmap].
  rewrite (dispose_runs o _ (dims f0) Hfs Hall Hrt').
  unfold disposeCalls. rewrite Hmap. reflexivity.
Qed.

Lemma disposed_of_map (ids : list InternalTexture) :
  disposedTextures (map DisposeFrameTexture ids) = ids.
Proof.
  unfold disposedTextures.
  induction ids as [ | id ids IH ]; cbn; [ reflexivity | now rewrite IH ].
Qed.

Lemma tickCalls_no_textures (l : list Call) :
  forallb is_tickCall l = true ->
  createdTextures l = [] /\ disposedTextures l = [].
Proof.
  induction l as [ | c l IH ]; intro H; [ cbn; auto | ].
  cbn in H. apply andb_true_iff in H. destruct H as [Hc Hl].
  destruct (IH Hl) as [H1 H2].
  destruct c; try discriminate; cbn; auto.
Qed.

(** X10.  [dispose] on a loaded object, after any ticks, returns and
    releases the texture of every frame exactly once: the handles it
    releases are those the load created for the frames, each once, and none
    had been released before. *)
Theorem dispose_releases_every_frame_texture_once :
  forall (url : string) (cb : bool) (f0 : GifFrame) (rest : list GifFrame)
         (ts : list Tick),
    let o := played url cb f0 rest ts in
    let o' := after (dispose o) in
    returned (dispose o) = true /\
    createdTextures (calls o) = 0%nat :: disposedTextures (calls o') /\
    disposedTextures (calls o) = [] /\
    NoDup (disposedTextures (calls o')) /\
    createdTextures (calls o') = createdTextures (calls o).
Proof.
  intros url cb f0 rest ts o o'.
  pose proof (dispose_played url cb f0 rest ts) as Hd. cbv zeta in Hd.
  fold o in Hd. subst o'. rewrite Hd. cbn [after returned calls set_calls].
  destruct (onFileLoaded_state url cb f0 rest)
    as (HP & _ & _ & _ & _ & _ & _ & _ & _ & _ & Hcalls0).
  destruct (runTicks_calls ts _ _ HP) as (l & Hcalls & Htick & _).
  change (after (runTicks ts
            (after (onFileLoaded (f0 :: rest) (after (construct url cb))))))
    with o in Hcalls.
  destruct (tickCalls_no_textures l Htick) as [Tc Td].
  destruct (resourceCalls_created (f0 :: rest) 1) as (R1 & _ & R3 & _).
  assert (Hc : createdTextures (calls o) = seq 0 (S (S (List.length rest)))).
  { rewrite Hcalls, Hcalls0. unfold createdTextures in *.
    rewrite !flat_map_app, R1, Tc. cbn. rewrite !app_nil_r. reflexivity. }
  assert (Hdo : disposedTextures (calls o) = []).
  { rewrite Hcalls, Hcalls0. unfold disposedTextures in *.
    rewrite !flat_map_app, R3, Td. reflexivity. }
  assert (Hd' : disposedTextures
                  (calls o ++
                   [StopRenderLoop; DisposeEffectWrapper; DisposeEffectRenderer]
                     ++ map DisposeFrameTexture (seq 1 (S (List.length rest)))
                     ++ [DisposeRenderTarget; SuperDispose])
                = seq 1 (S (List.length rest))).
  { pose proof (disposed_of_map (seq 1 (S (List.length rest)))) as Hm.
    unfold disposedTextures in *.
    rewrite !flat_map_app, Hdo, Hm. cbn. rewrite app_nil_r. reflexivity. }
  rewrite Hd', Hc.
  repeat split; try assumption.
  - apply seq_NoDup.
  - unfold createdTextures. rewrite !flat_map_app.
    assert (Hm : forall ids, flat_map (fun c => match c with
                                                 | CreateRawTexture id _ _ => [id]
                                                 | _ => []
                                                 end)
                               (map DisposeFrameTexture ids) = []).
    { induction ids; cbn; auto. }
    rewrite Hm. cbn. fold (createdTextures (calls o)). rewrite Hc, app_nil_r.
    reflexivity.
Qed.


(** X12.  After a load that brought no frame, [dispose] throws as well:
    the loop over the empty [_frames] passes, but there is no render target
    to dispose of; the tick callback is deregistered and the effect wrapper
    and renderer are released, the base class is not reached. *)
Theorem dispose_after_empty_load_throws :
  forall (url : string) (cb : bool),
    let o := after (onFileLoaded [] (after (construct url cb))) in
    let o' := after (dispose o) in
    dispose o = Throw (TypeError "this._renderTarget is undefined") o' /\
    issued o o' = [StopRenderLoop; DisposeEffectWrapper; DisposeEffectRenderer].
Proof.
  intros url cb. cbv zeta. split; vm_compute; reflexivity.
Qed.

(** ** Placement, shader and draw *)

Section Patch.

Import Shader Compositor.
Local Open Scope Q_scope.

Lemma nonzero_inject (z : Z) : z <> 0%Z -> ~ inject_Z z == 0.
Proof. intros H E. unfold Qeq in E. cbn in E. lia. Qed.

(** X13.  With the cached matrix, the vertex shader puts the corners of the
    unit quad on the grid lines of the target that bound the patch: the
    corner (0, 0) on column line [left] and row line
    [canvasHeight - (top + height)] counted from the bottom, the corner
    (1, 1) on column line [left + width] and row line [canvasHeight - top]. *)
Theorem quad_corners_on_grid_lines :
  forall (canvas d : Dims),
    width canvas <> 0%Z ->
    height canvas <> 0%Z ->
    let world := Placement.worldMatrixOf canvas d in
    let lo := gl_Position (vertexShader world (mkVec2 0 0)) in
    let hi := gl_Position (vertexShader world (mkVec2 1 1)) in
    r lo == gridLine (left d) (width canvas) /\
    g lo == gridLine (height canvas - (top d + height d)) (height canvas) /\
    r hi == gridLine (left d + width d) (width canvas) /\
    g hi == gridLine (height canvas - top d) (height canvas).
Proof.
  intros canvas d HW HH world lo hi.
  pose proof (nonzero_inject _ HW) as HWq.
  pose proof (nonzero_inject _ HH) as HHq.
  subst lo hi world. unfold gridLine.
  cbn [vertexShader gl_Position row_times Placement.worldMatrixOf
       x2 y2 x3 y3 z3 r g m0 m1 m2 m3 m4 m5 m6 m7 m8].
  unfold Z.sub.
  rewrite !inject_Z_mult, !inject_Z_plus, !inject_Z_opp, !inject_Z_plus.
  repeat split; field; assumption.
Qed.

Lemma le_inject (p q : Z) : (p <= q)%Z -> inject_Z p <= inject_Z q.
Proof. intro H. rewrite <- Zle_Qle. exact H. Qed.

(** A fraction of the canvas size between 0 and 1. *)
Lemma fraction_bounds (p size : Z) :
  (0 < size)%Z -> (0 <= p)%Z -> (p <= size)%Z ->
  0 <= inject_Z p / inject_Z size /\ inject_Z p / inject_Z size <= 1.
Proof.
  intros Hs H0 H1.
  pose proof (inject_Z_pos _ Hs) as Hq.
  split.
  - apply Qle_shift_div_l; [ exact Hq | ].
    rewrite Qmult_0_l. apply (le_inject 0 p H0).
  - apply Qle_shift_div_r; [ exact Hq | ].
    rewrite Qmult_1_l. apply le_inject. exact H1.
Qed.

(** X14.  For a patch that lies within the canvas, the translation and the
    far edge of the cached matrix stay between 0 and 1 on both axes, and the
    vertex shader puts every vertex of the quad inside clip space,
    [-1 <= x, y <= 1]. *)
Theorem patch_within_canvas_stays_in_clip_space :
  forall (canvas d : Dims) (position : vec2),
    (0 < width canvas)%Z ->
    (0 < height canvas)%Z ->
    withinCanvas canvas d ->
    In position positions ->
    let world := Placement.worldMatrixOf canvas d in
    let p := gl_Position (vertexShader world position) in
    (0 <= m2 world /\ m0 world + m2 world <= 1) /\
    (0 <= m5 world /\ m4 world + m5 world <= 1) /\
    (-(1) <= r p /\ r p <= 1) /\
    (-(1) <= g p /\ g p <= 1).
Proof.
  intros canvas d position HW HH (Hl & Ht & Hw & Hh & Hlw & Hth) Hin world p.
  assert (HWq : ~ inject_Z (width canvas) == 0)
    by (apply nonzero_inject; lia).
  assert (HHq : ~ inject_Z (height canvas) == 0)
    by (apply nonzero_inject; lia).
  destruct (fraction_bounds (left d) (width canvas) HW Hl ltac:(lia)) as [Tx0 _].
  destruct (fraction_bounds (width d) (width canvas) HW Hw ltac:(lia)) as [Sx0 _].
  destruct (fraction_bounds (height d) (height canvas) HH Hh ltac:(lia)) as [Sy0 _].
  destruct (fraction_bounds (left d + width d) (width canvas) HW ltac:(lia) Hlw)
    as [_ Sx1].
  destruct (fraction_bounds (height canvas - (top d + height d)) (height canvas) HH
              ltac:(lia) ltac:(lia)) as [Ty0 _].
  destruct (fraction_bounds (height canvas - top d) (height canvas) HH
              ltac:(lia) ltac:(lia)) as [_ Ty1].
  assert (Ex : inject_Z (width d) / inject_Z (width canvas)
               + inject_Z (left d) / inject_Z (width canvas)
               == inject_Z (left d + width d) / inject_Z (width canvas)).
  { rewrite inject_Z_plus. field. exact HWq. }
  assert (Ey0 : (inject_Z (height canvas) - (inject_Z (top d) + inject_Z (height d)))
                / inject_Z (height canvas)
                == inject_Z (height canvas - (top d + height d)) / inject_Z (height canvas)).
  { unfold Z.sub. rewrite !inject_Z_plus, inject_Z_opp, inject_Z_plus. field. exact HHq. }
  assert (Ey1 : inject_Z (height d) / inject_Z (height canvas)
                + (inject_Z (height canvas) - (inject_Z (top d) + inject_Z (height d)))
                  / inject_Z (height canvas)
                == inject_Z (height canvas - top d) / inject_Z (height canvas)).
  { unfold Z.sub. rewrite !inject_Z_plus, inject_Z_opp. field. exact HHq. }
  rewrite <- Ex in Sx1. rewrite <- Ey0 in Ty0. rewrite <- Ey1 in Ty1.
  subst p world.
  cbn [vertexShader gl_Position row_times Placement.worldMatrixOf
       x2 y2 x3 y3 z3 r g m0 m1 m2 m3 m4 m5 m6 m7 m8].
  revert Tx0 Sx0 Sy0 Sx1 Ty0 Ty1.
  generalize (inject_Z (width d) / inject_Z (width canvas)).
  generalize (inject_Z (left d) / inject_Z (width canvas)).
  generalize (inject_Z (height d) / inject_Z (height canvas)).
  generalize ((inject_Z (height canvas) - (inject_Z (top d) + inject_Z (height d)))
              / inject_Z (height canvas)).
  intros ty sy tx sx Tx0 Sx0 Sy0 Sx1 Ty0 Ty1.
  cbn in Hin.
  destruct Hin as [<- | [<- | [<- | [<- | []]]]];
    cbn [x2 y2]; repeat split; lra.
Qed.

(** X15.  The canvas is the patch of frame 0, so the matrix of frame 0
    always has scale 1 on both axes; it is the identity exactly when frame 0
    has neither a left nor a top offset. *)
Theorem first_frame_matrix_identity_iff_no_offset :
  forall (canvas : Dims),
    width canvas <> 0%Z ->
    height canvas <> 0%Z ->
    let world := Placement.worldMatrixOf canvas canvas in
    m0 world == 1 /\ m4 world == 1 /\
    (Placement.mat_eq world Placement.identity <->
     left canvas = 0%Z /\ top canvas = 0%Z).
Proof.
  intros canvas HW HH world.
  pose proof (nonzero_inject _ HW) as HWq.
  pose proof (nonzero_inject _ HH) as HHq.
  subst world. unfold Placement.mat_eq, Placement.worldMatrixOf, Placement.identity.
  cbn [m0 m1 m2 m3 m4 m5 m6 m7 m8].
  split; [ field; exact HWq | ].
  split; [ field; exact HHq | ].
  split.
  - intros (_ & _ & Htx & _ & _ & Hty & _).
    split.
    + apply inject_Z_injective.
      assert (E : inject_Z (left canvas)
                  == inject_Z (left canvas) / inject_Z (width canvas)
                     * inject_Z (width canvas)) by (field; exact HWq).
      rewrite E, Htx. ring.
    + apply inject_Z_injective.
      assert (E : inject_Z (top canvas)
                  == - ((inject_Z (height canvas)
                         - (inject_Z (top canvas) + inject_Z (height canvas)))
                        / inject_Z (height canvas))
                     * inject_Z (height canvas)) by (field; exact HHq).
      rewrite E, Hty. ring.
  - intros [Hl Ht]. rewrite Hl, Ht.
    repeat split; try reflexivity; field; assumption.
Qed.

(** X16.  The fragment shader discards exactly when the colour uniform has
    alpha 1 and the sampled texel has alpha 0; otherwise it writes the texel
    multiplied by the colour, component by component.  In particular it
    never discards when the colour's alpha is not 1, and with alpha 1 it
    never writes a fragment of alpha 0. *)
Theorem fragment_discard_rule :
  forall (textureSampler : sampler2D) (color : vec4) (vUV : vec2),
    let texel := texture2D textureSampler vUV in
    (fragmentShader textureSampler color vUV = Discard <->
     a color == 1 /\ a texel == 0) /\
    (forall c : vec4,
        fragmentShader textureSampler color vUV = FragColor c ->
        c = mul4 texel color /\ ~ (a color == 1 /\ a c == 0)).
Proof.
  intros textureSampler color vUV texel. subst texel.
  unfold fragmentShader.
  destruct (Qeq_bool (a color) 1) eqn:E1;
    destruct (Qeq_bool (a (mul4 (texture2D textureSampler vUV) color)) 0) eqn:E0;
    cbn [andb].
  - apply Qeq_bool_iff in E1. apply Qeq_bool_iff in E0. cbn [mul4 a] in E0.
    split.
    + split; [ intros _ | reflexivity ].
      split; [ exact E1 | ]. rewrite E1 in E0. rewrite <- E0. ring.
    + intros c H. discriminate.
  - apply Qeq_bool_neq in E0. split.
    + split; [ discriminate | ].
      intros [H1 H0]. exfalso. apply E0. cbn [mul4 a]. rewrite H0. ring.
    + intros c H. injection H as <-. split; [ reflexivity | ].
      intros [_ H0]. exact (E0 H0).
  - apply Qeq_bool_neq in E1. split.
    + split; [ discriminate | ]. intros [H1 _]. exfalso. exact (E1 H1).
    + intros c H. injection H as <-. split; [ reflexivity | ].
      intros [H1 _]. exact (E1 H1).
  - apply Qeq_bool_neq in E1. split.
    + split; [ discriminate | ]. intros [H1 _]. exfalso. exact (E1 H1).
    + intros c H. injection H as <-. split; [ reflexivity | ].
      intros [H1 _]. exact (E1 H1).
Qed.

Lemma div_le (p q w : Q) : 0 < w -> p <= q -> p / w <= q / w.
Proof.
  intros Hw H. unfold Qdiv. apply Qmult_le_compat_r; [ exact H | ].
  apply Qlt_le_weak, Qinv_lt_0_compat, Hw.
Qed.

Lemma in_patch_covered (canvas d : Dims) (s : Surface) (i j : Z) :
  s_width s = width canvas ->
  s_height s = height canvas ->
  (0 < width canvas)%Z ->
  (0 < height canvas)%Z ->
  in_patch (height canvas) d i j = true ->
  covered (map (vertexShader (Placement.worldMatrixOf canvas d)) positions)
          (centre s i j) = true.
Proof.
  intros Hsw Hsh HW HH Hin.
  unfold in_patch in Hin.
  rewrite !andb_true_iff, !Z.leb_le, !Z.ltb_lt in Hin.
  destruct Hin as [[[Hl Hr] Ht] Hb].
  pose proof (inject_Z_pos _ HW) as HWq.
  pose proof (inject_Z_pos _ HH) as HHq.
  assert (HWn : ~ inject_Z (width canvas) == 0) by (apply nonzero_inject; lia).
  assert (HHn : ~ inject_Z (height canvas) == 0) by (apply nonzero_inject; lia).
  assert (X1 : inject_Z (left d) / inject_Z (width canvas) * 2
               <= inject_Z (2 * i + 1) / inject_Z (width canvas)).
  { assert (E : inject_Z (left d) / inject_Z (width canvas) * 2
                == inject_Z (left d * 2) / inject_Z (width canvas))
      by (rewrite inject_Z_mult; field; exact HWn).
    rewrite E. apply div_le; [ exact HWq | ]. apply le_inject. lia. }
  assert (X2 : inject_Z (2 * i + 1) / inject_Z (width canvas)
               <= (inject_Z (width d) / inject_Z (width canvas)
                   + inject_Z (left d) / inject_Z (width canvas)) * 2).
  { assert (E : (inject_Z (width d) / inject_Z (width canvas)
                 + inject_Z (left d) / inject_Z (width canvas)) * 2
                == inject_Z ((width d + left d) * 2) / inject_Z (width canvas))
      by (rewrite inject_Z_mult, inject_Z_plus; field; exact HWn).
    rewrite E. apply div_le; [ exact HWq | ]. apply le_inject. lia. }
  assert (Y1 : (inject_Z (height canvas) - (inject_Z (top d) + inject_Z (height d)))
               / inject_Z (height canvas) * 2
               <= inject_Z (2 * j + 1) / inject_Z (height canvas)).
  { assert (E : (inject_Z (height canvas) - (inject_Z (top d) + inject_Z (height d)))
                / inject_Z (height canvas) * 2
                == inject_Z ((height canvas + - (top d + height d)) * 2)
                   / inject_Z (height canvas))
      by (rewrite inject_Z_mult, (inject_Z_plus (height canvas)), inject_Z_opp,
            (inject_Z_plus (top d)); field; exact HHn).
    rewrite E. apply div_le; [ exact HHq | ]. apply le_inject. lia. }
  assert (Y2 : inject_Z (2 * j + 1) / inject_Z (height canvas)
               <= (inject_Z (height d) / inject_Z (height canvas)
                   + (inject_Z (height canvas) - (inject_Z (top d) + inject_Z (height d)))
                     / inject_Z (height canvas)) * 2).
  { assert (E : (inject_Z (height d) / inject_Z (height canvas)
                 + (inject_Z (height canvas) - (inject_Z (top d) + inject_Z (height d)))
                   / inject_Z (height canvas)) * 2
                == inject_Z ((height canvas + - top d) * 2) / inject_Z (height canvas))
      by (rewrite inject_Z_mult, (inject_Z_plus (height canvas)), inject_Z_opp;
          field; exact HHn).
    rewrite E. apply div_le; [ exact HHq | ]. apply le_inject. lia. }
  unfold covered, centre. rewrite Hsw, Hsh.
  cbn [map positions existsb vertexShader gl_Position row_times Placement.worldMatrixOf
       x2 y2 x3 y3 z3 r g m0 m1 m2 m3 m4 m5 m6 m7 m8].
  revert X1 X2 Y1 Y2.
  generalize (inject_Z (width d) / inject_Z (width canvas)).
  generalize (inject_Z (left d) / inject_Z (width canvas)).
  generalize (inject_Z (height d) / inject_Z (height canvas)).
  generalize ((inject_Z (height canvas) - (inject_Z (top d) + inject_Z (height d)))
              / inject_Z (height canvas)).
  generalize (inject_Z (2 * i + 1) / inject_Z (width canvas)).
  generalize (inject_Z (2 * j + 1) / inject_Z (height canvas)).
  intros cy cx ty sy tx sx X1 X2 Y1 Y2.
  rewrite !andb_true_iff, !orb_true_iff, !Qle_bool_iff.
  repeat split.
  - right. right. left. lra.
  - left. lra.
  - right. right. left. lra.
  - left. lra.
Qed.

(** X17.  A draw with the cached matrix covers exactly the pixels of the
    rectangle the frame's [dims] name: a pixel of the target inside it gets
    the blended fragment unless the fragment is discarded, every other pixel
    is left as it was. *)
Theorem draw_writes_exactly_the_patch :
  forall (canvas d : Dims) (textureSampler : sampler2D) (color : vec4)
         (blend : vec4 -> vec4 -> vec4) (s : Surface) (i j : Z),
    s_width s = width canvas ->
    s_height s = height canvas ->
    (0 < width canvas)%Z ->
    (0 < height canvas)%Z ->
    (0 <= width d)%Z ->
    (0 <= height d)%Z ->
    let world := Placement.worldMatrixOf canvas d in
    covered (map (vertexShader world) positions) (centre s i j)
    = in_patch (height canvas) d i j /\
    pixel (draw world textureSampler color blend s) i j =
    (if in_surface s i j && in_patch (height canvas) d i j
     then match fragmentShader textureSampler color
                               (interpolate world (centre s i j)) with
          | Discard => pixel s i j
          | FragColor c => blend c (pixel s i j)
          end
     else pixel s i j).
Proof.
  intros canvas d textureSampler color blend s i j Hsw Hsh HW HH Hw Hh world.
  assert (Hcov : covered (map (vertexShader world) positions) (centre s i j)
                 = in_patch (height canvas) d i j).
  { destruct (in_patch (height canvas) d i j) eqn:Hin.
    - apply in_patch_covered; assumption.
    - destruct (covered _ _) eqn:Hc; [ | reflexivity ].
      apply (covered_in_patch canvas d s i j Hsw Hsh HW HH Hw Hh) in Hc.
      congruence. }
  split; [ exact Hcov | ].
  unfold draw. cbn [pixel]. fold world. rewrite Hcov. reflexivity.
Qed.

Lemma texelCentre_bounds (k n : Z) :
  (0 <= k)%Z -> (k < n)%Z -> 0 < texelCentre k n /\ texelCentre k n < 1.
Proof.
  intros H0 H1. unfold texelCentre.
  assert (Hn : 0 < inject_Z (2 * n)) by (apply inject_Z_pos; lia).
  split.
  - apply Qlt_shift_div_l; [ exact Hn | ].
    rewrite Qmult_0_l. apply inject_Z_pos. lia.
  - apply Qlt_shift_div_r; [ exact Hn | ].
    rewrite Qmult_1_l. rewrite <- Zlt_Qlt. lia.
Qed.

(** X18.  For a pixel inside the patch rectangle the texture coordinate
    handed to the fragment shader is the centre of the texel with the same
    column and (bottom-up) row within the patch, so it lies strictly inside
    the unit square. *)
Theorem pixel_samples_its_texel_centre :
  forall (canvas d : Dims) (s : Surface) (i j : Z),
    s_width s = width canvas ->
    s_height s = height canvas ->
    (0 < width canvas)%Z ->
    (0 < height canvas)%Z ->
    in_patch (height canvas) d i j = true ->
    let vUV := interpolate (Placement.worldMatrixOf canvas d) (centre s i j) in
    let column := (i - left d)%Z in
    let row := (j - (height canvas - (top d + height d)))%Z in
    (0 <= column < width d)%Z /\
    (0 <= row < height d)%Z /\
    x2 vUV == texelCentre column (width d) /\
    y2 vUV == texelCentre row (height d) /\
    (0 < x2 vUV /\ x2 vUV < 1) /\
    (0 < y2 vUV /\ y2 vUV < 1).
Proof.
  intros canvas d s i j Hsw Hsh HW HH Hin vUV column row.
  unfold in_patch in Hin.
  rewrite !andb_true_iff, !Z.leb_le, !Z.ltb_lt in Hin.
  destruct Hin as [[[Hl Hr] Ht] Hb].
  assert (Hc : (0 <= column < width d)%Z) by (subst column; lia).
  assert (Hrow : (0 <= row < height d)%Z) by (subst row; lia).
  assert (HWn : ~ inject_Z (width canvas) == 0) by (apply nonzero_inject; lia).
  assert (HHn : ~ inject_Z (height canvas) == 0) by (apply nonzero_inject; lia).
  assert (Hwn : ~ inject_Z (width d) == 0) by (apply nonzero_inject; lia).
  assert (Hhn : ~ inject_Z (height d) == 0) by (apply nonzero_inject; lia).
  assert (Ex : x2 vUV == texelCentre column (width d)).
  { subst vUV column. unfold interpolate, centre, texelCentre. rewrite Hsw.
    cbn [vertexShader gl_Position row_times Placement.worldMatrixOf
         x2 y2 x3 y3 z3 r g m0 m1 m2 m3 m4 m5 m6 m7 m8].
    unfold Z.sub.
    rewrite !inject_Z_plus, !inject_Z_mult, !inject_Z_plus, !inject_Z_opp.
    field; repeat split; auto; intro E; apply Hwn; lra. }
  assert (Ey : y2 vUV == texelCentre row (height d)).
  { subst vUV row. unfold interpolate, centre, texelCentre. rewrite Hsh.
    cbn [vertexShader gl_Position row_times Placement.worldMatrixOf
         x2 y2 x3 y3 z3 r g m0 m1 m2 m3 m4 m5 m6 m7 m8].
    unfold Z.sub.
    rewrite !inject_Z_plus, !inject_Z_mult, !inject_Z_plus, !inject_Z_opp,
      !inject_Z_plus, !inject_Z_opp, !inject_Z_plus.
    field; repeat split; auto; intro E; apply Hhn; lra. }
  split; [ exact Hc | ]. split; [ exact Hrow | ].
  split; [ exact Ex | ]. split; [ exact Ey | ].
  rewrite Ex, Ey.
  split; apply texelCentre_bounds; lia.
Qed.

Lemma quad_corners_on_grid_lines_witness :
  r (gl_Position (vertexShader
                    (Placement.worldMatrixOf (mkDims 4 4 0 0) (mkDims 2 2 1 1))
                    (mkVec2 0 0)))
  == gridLine 1 4.
Proof.
  apply (quad_corners_on_grid_lines (mkDims 4 4 0 0) (mkDims 2 2 1 1));
    cbn; discriminate.
Defined.

Lemma patch_within_canvas_stays_in_clip_space_witness :
  let p := gl_Position (vertexShader
                          (Placement.worldMatrixOf (mkDims 4 4 0 0) (mkDims 2 2 1 1))
                          (mkVec2 1 1)) in
  (-(1) <= r p /\ r p <= 1) /\ (-(1) <= g p /\ g p <= 1).
Proof.
  cbv zeta.
  apply (patch_within_canvas_stays_in_clip_space
           (mkDims 4 4 0 0) (mkDims 2 2 1 1) (mkVec2 1 1)).
  - reflexivity.
  - reflexivity.
  - unfold withinCanvas. cbn. lia.
  - cbn. auto.
Defined.

Lemma first_frame_matrix_identity_iff_no_offset_witness :
  ~ Placement.mat_eq (Placement.worldMatrixOf (mkDims 4 4 0 1) (mkDims 4 4 0 1))
                     Placement.identity.
Proof.
  intro H.
  apply (first_frame_matrix_identity_iff_no_offset (mkDims 4 4 0 1)) in H.
  - destruct H as [Hl _]. discriminate Hl.
  - cbn. discriminate.
  - cbn. discriminate.
Defined.

Lemma draw_writes_exactly_the_patch_witness :
  let s := mkSurface 4 4 (fun _ _ => mkVec4 0 0 0 1) in
  let world := Placement.worldMatrixOf (mkDims 4 4 0 0) (mkDims 2 2 1 1) in
  covered (map (vertexShader world) positions) (centre s 2 1) = true /\
  covered (map (vertexShader world) positions) (centre s 3 1) = false.
Proof.
  cbv zeta. split.
  - apply (draw_writes_exactly_the_patch
             (mkDims 4 4 0 0) (mkDims 2 2 1 1)
             (fun _ => mkVec4 1 1 1 1) (mkVec4 1 1 1 1) (fun c _ => c)
             (mkSurface 4 4 (fun _ _ => mkVec4 0 0 0 1)) 2 1);
      try reflexivity; cbn; lia.
  - apply (draw_writes_exactly_the_patch
             (mkDims 4 4 0 0) (mkDims 2 2 1 1)
             (fun _ => mkVec4 1 1 1 1) (mkVec4 1 1 1 1) (fun c _ => c)
             (mkSurface 4 4 (fun _ _ => mkVec4 0 0 0 1)) 3 1);
      try reflexivity; cbn; lia.
Defined.

Lemma pixel_samples_its_texel_centre_witness :
  let s := mkSurface 4 4 (fun _ _ => mkVec4 0 0 0 1) in
  let vUV := interpolate (Placement.worldMatrixOf (mkDims 4 4 0 0) (mkDims 2 2 1 1))
                         (centre s 2 1) in
  x2 vUV == texelCentre 1 2 /\ y2 vUV == texelCentre 0 2.
Proof.
  cbv zeta.
  destruct (pixel_samples_its_texel_centre
              (mkDims 4 4 0 0) (mkDims 2 2 1 1)
              (mkSurface 4 4 (fun _ _ => mkVec4 0 0 0 1)) 2 1)
    as (_ & _ & Hx & Hy & _); try reflexivity.
  split; [ exact Hx | exact Hy ].
Defined.

(** A draw of a frame outside whose rectangle the pixel lies keeps the
    pixel and the size of the target. *)
Lemma renderPatch_outside (canvas : Dims) (textures : InternalTexture -> sampler2D)
      (color : vec4) (blend : vec4 -> vec4 -> vec4) (s : Surface)
      (f : GifFrame) (i j : Z) :
  s_width s = width canvas ->
  s_height s = height canvas ->
  (0 < width canvas)%Z ->
  (0 < height canvas)%Z ->
  (0 <= width (dims f))%Z ->
  (0 <= height (dims f))%Z ->
  worldMatrix f = Some (Placement.worldMatrixOf canvas (dims f)) ->
  in_patch (height canvas) (dims f) i j = false ->
  let s' := renderPatch textures color blend s f in
  s_width s' = width canvas /\
  s_height s' = height canvas /\
  pixel s' i j = pixel s i j.
Proof.
  intros Hsw Hsh HW HH Hw Hh Hworld Hout s'. subst s'.
  unfold renderPatch. rewrite Hworld.
  destruct (texture f) as [ id | ]; [ | auto ].
  unfold draw. cbn [s_width s_height pixel].
  repeat split; try assumption.
  destruct (in_surface s i j); cbn [andb]; [ | reflexivity ].
  destruct (covered _ (centre s i j)) eqn:Hcov; [ | reflexivity ].
  apply (covered_in_patch canvas (dims f) s i j Hsw Hsh HW HH Hw Hh) in Hcov.
  congruence.
Qed.

Lemma withResources_In (canvas : Dims) (fs : list GifFrame) :
  forall (n : nat) (f : GifFrame),
    In f (withResources canvas n fs) ->
    exists g : GifFrame,
      In g fs /\ dims f = dims g /\
      worldMatrix f = Some (Placement.worldMatrixOf canvas (dims g)).
Proof.
  induction fs as [ | g rest IH ]; intros n f Hin; [ contradiction | ].
  cbn in Hin. destruct Hin as [<- | Hin].
  - exists g. cbn. auto.
  - destruct (IH _ _ Hin) as (g' & Hg & Hd & Hw). exists g'. cbn. auto.
Qed.

Lemma drawn_of_calls (fs : list GifFrame) (l : list Call) :
  Forall (fun c => match c with Render f => In f fs | _ => True end) l ->
  Forall (fun f => In f fs)
         (flat_map (fun c => match c with Render f => [f] | _ => [] end) l).
Proof.
  induction 1 as [ | c l Hc _ IH ]; [ constructor | ].
  destruct c; cbn; auto.
Qed.

(** X19.  Over a whole run, a pixel of the render target that lies in the
    rectangle of none of the frames is never written: after any number of
    ticks it still has the value the target started with. *)
Theorem uncovered_pixel_never_written :
  forall (url : string) (cb : bool) (f0 : GifFrame) (rest : list GifFrame)
         (ts : list Tick) (textures : InternalTexture -> sampler2D)
         (color : vec4) (blend : vec4 -> vec4 -> vec4) (s : Surface) (i j : Z),
    s_width s = width (dims f0) ->
    s_height s = height (dims f0) ->
    (0 < width (dims f0))%Z ->
    (0 < height (dims f0))%Z ->
    Forall (fun f => (0 <= width (dims f))%Z /\ (0 <= height (dims f))%Z /\
                     in_patch (height (dims f0)) (dims f) i j = false)
           (f0 :: rest) ->
    pixel (composite textures color blend s (played url cb f0 rest ts)) i j
    = pixel s i j.
Proof.
  intros url cb f0 rest ts textures color blend s i j Hsw Hsh HW HH Hall.
  destruct (onFileLoaded_state url cb f0 rest)
    as (HP & _ & _ & _ & _ & _ & _ & _ & _ & Hdrawn & _).
  destruct (runTicks_calls ts _ _ HP) as (l & Hcalls & _ & _ & Hin).
  fold (played url cb f0 rest ts) in Hcalls.
  assert (Hd : Forall (fun f => In f (withResources (dims f0) 1 (f0 :: rest)))
                      (drawn (played url cb f0 rest ts))).
  { unfold drawn in *. rewrite Hcalls, flat_map_app, Hdrawn.
    apply drawn_of_calls. exact Hin. }
  unfold composite. revert Hd Hsw Hsh.
  generalize (drawn (played url cb f0 rest ts)). intro fs. revert s.
  induction fs as [ | f fs IH ]; intros s Hd Hsw Hsh; [ reflexivity | ].
  inversion Hd as [ | ? ? Hf Hfs ]; subst.
  destruct (withResources_In _ _ _ _ Hf) as (g & Hg & Hdims & Hworld).
  rewrite Forall_forall in Hall. destruct (Hall g Hg) as (Hw & Hh & Hout).
  rewrite <- Hdims in Hw, Hh, Hout, Hworld.
  destruct (renderPatch_outside (dims f0) textures color blend s f i j
              Hsw Hsh HW HH Hw Hh Hworld Hout) as (Hsw' & Hsh' & Hpix).
  cbn [fold_left]. rewrite (IH _ Hfs Hsw' Hsh'). exact Hpix.
Qed.

Lemma uncovered_pixel_never_written_witness :
  let s := mkSurface 4 4 (fun _ _ => mkVec4 0 0 0 1) in
  pixel (composite (fun _ _ => mkVec4 1 1 1 1) (mkVec4 1 1 1 1) (fun c _ => c) s
           (played "a.gif" true
              (mkGifFrame (mkDims 4 4 0 1) [] 100 None None)
              [Sample.frameB]
              [mkTick 0 0 true; mkTick 100 100 true; mkTick 150 150 true])) 0 0
  = mkVec4 0 0 0 1.
Proof.
  cbv zeta.
  apply (uncovered_pixel_never_written "a.gif" true
           (mkGifFrame (mkDims 4 4 0 1) [] 100 None None) [Sample.frameB]
           [mkTick 0 0 true; mkTick 100 100 true; mkTick 150 150 true]
           (fun _ _ => mkVec4 1 1 1 1) (mkVec4 1 1 1 1) (fun c _ => c)
           (mkSurface 4 4 (fun _ _ => mkVec4 0 0 0 1)) 0 0).
  - reflexivity.
  - reflexivity.
  - reflexivity.
  - reflexivity.
  - repeat constructor; cbn; discriminate.
Defined.

End Patch.

(** ** The page script *)

(** X20.  However often the switch button is clicked, the effect index is
    the number of clicks modulo 4, it always selects one of the four
    post-processes (never [undefined]), and four more clicks bring back the
    same one. *)
Theorem effect_index_cycles :
  forall n : nat,
    App.afterClicks n = (n mod 4)%nat /\
    (exists e : App.PostProcess,
        App.currentEffect (App.afterClicks n) = Some e) /\
    App.afterClicks (n + 4) = App.afterClicks n.
Proof.
  assert (Hmod : forall n : nat, App.afterClicks n = (n mod 4)%nat).
  { induction n as [ | n IH ]; [ reflexivity | ].
    change (App.afterClicks (S n)) with (App.onclick (App.afterClicks n)).
    rewrite IH. unfold App.onclick. cbn [App.allEffects List.length].
    replace (S (n mod 4)) with (n mod 4 + 1)%nat by lia.
    rewrite Nat.Div0.add_mod_idemp_l. f_equal. lia. }
  intro n. split; [ apply Hmod | ]. split.
  - rewrite Hmod. unfold App.currentEffect.
    destruct (nth_error App.allEffects (n mod 4)) as [ e | ] eqn:Hnth.
    + exists e. reflexivity.
    + apply nth_error_None in Hnth. cbn [App.allEffects List.length] in Hnth.
      pose proof (Nat.mod_upper_bound n 4). lia.
  - rewrite !Hmod.
    replace (n + 4)%nat with (n + 1 * 4)%nat by lia.
    apply Nat.Div0.mod_add.
Qed.
